(** * The experiment-comparison harness of [clustering/active_clustering.py]

    A shallow embedding of the seed sampler ([sample_cluster_seeds]), the
    algorithm dispatch ([cluster]), the multi-seed evaluation loop
    ([compare_algorithms]) and the feature-extraction front end
    ([extract_features]), followed by the properties the specification
    states about them.

    Python integers are [Z]; sequences are lists; the two [defaultdict(list)]
    of the seed sampler are insertion-ordered association lists (their
    iteration order decides the output order); the results table is a
    [gmap string]; the set built from [random.sample] is a [gset nat].
    Effects (the process-wide random source, standard output, exceptions) are
    threaded through an exception-and-state monad.  The array that
    [np.array] builds from a list of Python integers is the list of the
    values of its entries, with the conversion NumPy applies to them.  The
    clustering library, scikit-learn and [utils.set_seed] are collaborators
    outside the file: they are the fields of the class [Environment]. *)

From stdpp Require Import base list strings gmap pretty.

Open Scope Z_scope.

(** ** Exceptions *)

Inductive exn : Type :=
  | AssertionError                      (* a failed [assert]; it has no message *)
  | ValueError (msg : string)
  | NotImplementedError
  | LibraryError (msg : string).        (* raised inside an external collaborator *)

Definition exn_message (e : exn) : string :=
  match e with
  | AssertionError => ""
  | ValueError msg => msg
  | NotImplementedError => ""
  | LibraryError msg => msg
  end.

(** What [random.sample] raises when asked for more than the population
    holds, or for a negative number. *)
Definition SAMPLE_ERROR : exn :=
  ValueError "Sample larger than population or is negative".

(** [contains needle hay]: [needle] occurs in [hay] as a substring. *)
Fixpoint contains (needle hay : string) : bool :=
  String.prefix needle hay ||
  match hay with
  | EmptyString => false
  | String _ hay' => contains needle hay'
  end.

(** ** [np.array] on a list of Python integers

    NumPy gives each integer the first of int64, uint64 and object that
    holds it and the array the common type of its entries: int64 next to
    uint64 promotes to float64, anything next to object is object, and the
    empty list gives an empty float64 array.  The entries of a float64 array
    are the doubles nearest to the integers (ties to even); the other types
    keep the integers as they are. *)

Module np.

Inductive dtype : Type := int64 | uint64 | float64 | object.

(** The type of one Python integer. *)
Definition dtype_of_int (x : Z) : dtype :=
  if bool_decide (- 2 ^ 63 ≤ x < 2 ^ 63) then int64
  else if bool_decide (0 ≤ x < 2 ^ 64) then uint64
  else object.

Definition promote_types (a b : dtype) : dtype :=
  match a, b with
  | object, _ | _, object => object
  | float64, _ | _, float64 => float64
  | int64, int64 => int64
  | uint64, uint64 => uint64
  | int64, uint64 | uint64, int64 => float64
  end.

Definition result_type (l : list Z) : dtype :=
  match l with
  | [] => float64
  | x :: l' => fold_left (λ d y, promote_types d (dtype_of_int y)) l' (dtype_of_int x)
  end.

(** [float(x)] as the integer the double equals: [x] rounded to 53
    significant bits, ties to even.  (An integer below 2^64 in absolute
    value does not overflow.) *)
Definition to_float64 (x : Z) : Z :=
  let a := Z.abs x in
  let e := Z.log2 a - 52 in
  if bool_decide (e ≤ 0) then x
  else
    let q := Z.shiftr a e in
    let r := Z.land a (Z.ones e) in
    let half := Z.shiftl 1 (e - 1) in
    let q' := if bool_decide (half < r ∨ r = half ∧ Z.odd q = true) then q + 1 else q in
    Z.sgn x * Z.shiftl q' e.

(** The values of the entries of [np.array(l)]. *)
Definition array (l : list Z) : list Z :=
  match result_type l with
  | float64 => to_float64 <$> l
  | _ => l
  end.

(** The integers an int64 array holds. *)
Definition is_int64 (x : Z) : Prop := - 2 ^ 63 ≤ x < 2 ^ 63.

End np.

(** ** External collaborators *)

Class Environment : Type := {
  (** state of whatever lives outside the harness: the random sources of
      [random], [numpy], the internals of the clustering library *)
  world : Type;
  (** one row of the Feature Matrix *)
  feature : Type;
  (** a list of pairwise constraints (must-link or cannot-link) *)
  constraints : Type;
  (** a clustering-quality score (a float) *)
  score : Type;
  (** a raw dataset as [load_dataset] yields it, and a dense TF-IDF matrix *)
  dataset : Type;
  matrix : Type;

  (** [__debug__]: false when the interpreter runs with [-O], which strips
      every [assert] *)
  py_debug : bool;

  (** the selection step of [random.sample(range(n), k)] for [0 <= k <= n]:
      [k] distinct positions below [n] *)
  choose : nat → nat → world → list nat * world;
  choose_NoDup : ∀ n k w, (k ≤ n)%nat → NoDup (choose n k w).1;
  choose_length : ∀ n k w, (k ≤ n)%nat → length (choose n k w).1 = k;
  choose_bound : ∀ n k w i, (k ≤ n)%nat → i ∈ (choose n k w).1 → (i < n)%nat;

  (** [utils.set_seed] *)
  set_seed : Z → world → world;

  (** [KMeans(n_clusters).fit(features)], giving [labels_] *)
  KMeans_fit : Z → list feature → world → (exn + list Z) * world;
  (** [MinMax(n_clusters).fit(features, oracle=ExampleOracle(labels, max_queries_cnt))],
      giving [pairwise_constraints_] *)
  MinMax_fit : Z → list feature → list Z → option Z → world →
               (exn + constraints * constraints) * world;
  (** [PCKMeans(n_clusters).fit(features, ml, cl)] *)
  PCKMeans_fit : Z → list feature → constraints → constraints → world →
                 (exn + list Z) * world;
  (** [ConstrainedKMeans(n_clusters).fit(features, y)] *)
  ConstrainedKMeans_fit : Z → list feature → list Z → world → (exn + list Z) * world;
  (** [SeededKMeans(n_clusters).fit(features, y)] *)
  SeededKMeans_fit : Z → list feature → list Z → world → (exn + list Z) * world;

  (** [sklearn.metrics] *)
  adjusted_rand_score : list Z → list Z → exn + score;
  normalized_mutual_info_score : list Z → list Z → exn + score;

  (** [np.array(TfidfVectorizer(...).fit_transform(dataset).todense())] and
      the rendering of [matrix.shape] *)
  tfidf_matrix : dataset → exn + matrix;
  shape_repr : matrix → string;
}.

(** ** Program state and the monad of the harness *)

Section Harness.
Context `{Env : Environment}.

(** [fits] is instrumentation: the names of the library fits that have been
    entered so far, oldest first. *)
Record state : Type := mkState {
  ext : world;
  stdout : list string;
  fits : list string;
}.

Definition M (A : Type) : Type := state → (exn + A) * state.

Definition ret {A} (a : A) : M A := λ st, (inr a, st).

Definition raise {A} (e : exn) : M A := λ st, (inl e, st).

Definition bind {A B} (m : M A) (f : A → M B) : M B :=
  λ st, match m st with
        | (inl e, st') => (inl e, st')
        | (inr a, st') => f a st'
        end.

Notation "x <- m ;; k" := (bind m (λ x, k))
  (at level 100, m at next level, right associativity, only parsing).
Notation "m ;;; k" := (bind m (λ _, k))
  (at level 100, right associativity, only parsing).

(** [print(line)] *)
Definition print (line : string) : M unit :=
  λ st, (inr (), mkState (ext st) (stdout st ++ [line]) (fits st)).

(** An external call that acts on the world. *)
Definition call {A} (f : world → (exn + A) * world) : M A :=
  λ st, let '(r, w) := f (ext st) in (r, mkState w (stdout st) (fits st)).

(** An external call without effect on the world. *)
Definition pure_call {A} (r : exn + A) : M A := λ st, (r, st).

Definition entering (name : string) : M unit :=
  λ st, (inr (), mkState (ext st) (stdout st) (fits st ++ [name])).

(** [assert cond] *)
Definition py_assert (cond : bool) : M unit :=
  if py_debug && negb cond then raise AssertionError else ret ().

Definition when (b : bool) (m : M unit) : M unit := if b then m else ret ().

(** [for x in xs: body], with the loop-carried variables as an accumulator. *)
Fixpoint for_each {A S} (xs : list A) (body : A → S → M S) (s : S) : M S :=
  match xs with
  | [] => ret s
  | x :: xs' => s' <- body x s ;; for_each xs' body s'
  end.

(** ** Python built-ins *)

Definition enumerate {A} (l : list A) : list (nat * A) := zip (seq 0 (length l)) l.

(** [range(n)] *)
Definition range (n : Z) : list Z := Z.of_nat <$> seq 0 (Z.to_nat n).

(** [d[key].append(v)] on a [defaultdict(list)]: a new key goes last. *)
Fixpoint dd_append {A} (key : Z) (v : A) (d : list (Z * list A)) : list (Z * list A) :=
  match d with
  | [] => [(key, [v])]
  | (key', vs) :: d' =>
      if decide (key' = key) then (key', vs ++ [v]) :: d'
      else (key', vs) :: dd_append key v d'
  end.

(** [random.sample(range(n), k=k)] *)
Definition random_sample (n : nat) (k : Z) : M (list nat) :=
  if bool_decide (0 ≤ k ≤ Z.of_nat n)
  then call (λ w, let '(s, w') := choose n (Z.to_nat k) w in (inr s, w'))
  else raise SAMPLE_ERROR.

(** ** [sample_cluster_seeds] *)

(** The unknown-label sentinel. *)
Definition UNKNOWN : Z := -1.

(** The first loop: both dictionaries after the pass over
    [enumerate(zip(features, labels))]. *)
Definition group_step {F} (acc : list (Z * list F) * list (Z * list nat))
    (item : nat * (F * Z)) : list (Z * list F) * list (Z * list nat) :=
  let '(points_by_cluster, original_index_by_cluster) := acc in
  let '(i, (f, l)) := item in
  (dd_append l f points_by_cluster, dd_append l i original_index_by_cluster).

Definition grouped {F} (pairs : list (F * Z)) : list (Z * list F) * list (Z * list nat) :=
  fold_left group_step (enumerate pairs) ([], []).

Definition group_by_label {F} (features : list F) (labels : list Z)
    : list (Z * list F) * list (Z * list nat) :=
  grouped (zip features labels).

Definition points_by_cluster {F} (features : list F) (labels : list Z) :=
  (group_by_label features labels).1.

Definition original_index_by_cluster {F} (features : list F) (labels : list Z) :=
  (group_by_label features labels).2.

(** The inner loop over [enumerate(points)]. *)
Definition mark_group {F} (label : Z) (sample : gset nat) (points : list F) : list Z :=
  (λ '(i, _), if decide (i ∈ sample) then label else UNKNOWN) <$> enumerate points.

(** The body of the second loop. *)
Definition seed_group {F} (num_seed_points_per_label : Z)
    (group : Z * list F) (labels : list Z) : M (list Z) :=
  let '(label, points) := group in
  drawn <- random_sample (length points) num_seed_points_per_label ;;
  let sample : gset nat := list_to_set drawn in
  ret (labels ++ mark_group label sample points).

Definition sample_cluster_seeds {F} (features : list F) (labels : list Z)
    (num_seed_points_per_label : Z) (aggregate : string) : M (list Z) :=
  let points_by_cluster := points_by_cluster features labels in
  labels <- for_each points_by_cluster (seed_group num_seed_points_per_label) [] ;;
  ret (np.array labels).

(** ** [cluster] *)

Definition ALGORITHMS : list string :=
  ["KMeans"; "PCKMeans"; "ConstrainedKMeans"; "SeededKMeans"].

(** A fitted clusterer, as far as the harness looks at it. *)
Record clusterer : Type := Clusterer { labels_ : list Z }.

Definition cluster (semisupervised_algo : string) (features : list feature)
    (labels : list Z) (num_clusters : Z) (max_feedback_given : option Z) : M clusterer :=
  py_assert (bool_decide (semisupervised_algo ∈ ALGORITHMS)) ;;;
  if decide (semisupervised_algo = "KMeans") then
    entering "KMeans.fit" ;;;
    assignment <- call (KMeans_fit num_clusters features) ;;
    ret (Clusterer assignment)
  else if decide (semisupervised_algo = "PCKMeans") then
    entering "MinMax.fit" ;;;
    pairwise_constraints <-
      call (MinMax_fit num_clusters features labels max_feedback_given) ;;
    entering "PCKMeans.fit" ;;;
    assignment <- call (PCKMeans_fit num_clusters features
                          pairwise_constraints.1 pairwise_constraints.2) ;;
    ret (Clusterer assignment)
  else if decide (semisupervised_algo = "ConstrainedKMeans") then
    cluster_seeds <- sample_cluster_seeds features labels 1 "mean" ;;
    entering "ConstrainedKMeans.fit" ;;;
    assignment <- call (ConstrainedKMeans_fit num_clusters features cluster_seeds) ;;
    ret (Clusterer assignment)
  else if decide (semisupervised_algo = "SeededKMeans") then
    cluster_seeds <- sample_cluster_seeds features labels 1 "mean" ;;
    entering "SeededKMeans.fit" ;;;
    assignment <- call (SeededKMeans_fit num_clusters features cluster_seeds) ;;
    ret (Clusterer assignment)
  else
    raise (ValueError ("Algorithm " +:+ semisupervised_algo +:+ " not supported.")).

(** ** [compare_algorithms] *)

(** One metric record, [{"rand": ..., "nmi": ...}]. *)
Record metric_record : Type := MetricRecord { rand : score; nmi : score }.

(** The body of the inner loop. *)
Definition run_algorithm (features : list feature) (labels : list Z) (num_clusters : Z)
    (max_feedback_given : option Z) (verbose : bool) (seed : Z)
    (semisupervised_algo : string) (algo_results : gmap string (list metric_record))
    : M (gmap string (list metric_record)) :=
  when verbose
    (print ("Running " +:+ semisupervised_algo +:+ " for seed " +:+ pretty seed)) ;;;
  clusterer <- cluster semisupervised_algo features labels num_clusters max_feedback_given ;;
  rand_score <- pure_call (adjusted_rand_score labels (labels_ clusterer)) ;;
  nmi <- pure_call (normalized_mutual_info_score labels (labels_ clusterer)) ;;
  ret (<[semisupervised_algo :=
           default [] (algo_results !! semisupervised_algo) ++ [MetricRecord rand_score nmi]]>
         algo_results).

(** The body of the outer loop. *)
Definition run_seed (features : list feature) (labels : list Z) (num_clusters : Z)
    (max_feedback_given : option Z) (algorithms : list string) (verbose : bool)
    (item : nat * Z) (algo_results : gmap string (list metric_record))
    : M (gmap string (list metric_record)) :=
  let '(i, seed) := item in
  when verbose (print ("Starting experiments for " +:+ pretty i +:+ "th seed")) ;;;
  call (λ w, (inr (), set_seed seed w)) ;;;
  algo_results' <-
    for_each algorithms
      (run_algorithm features labels num_clusters max_feedback_given verbose seed)
      algo_results ;;
  when verbose (print (String (Ascii.ascii_of_nat 10) EmptyString)) ;;;
  ret algo_results'.

Definition compare_algorithms (features : list feature) (labels : list Z)
    (num_clusters : Z) (max_feedback_given : option Z) (algorithms : list string)
    (num_seeds : Z) (verbose : bool) : M (gmap string (list metric_record)) :=
  for_each (enumerate (range num_seeds))
    (run_seed features labels num_clusters max_feedback_given algorithms verbose) ∅.

(** ** [extract_features] *)

(** The values [extract_features] can hand back: the dataset itself, a dense
    matrix, or [None] when the function body runs off its end. *)
Inductive extracted : Type :=
  | Identity (d : dataset)
  | Dense (m : matrix)
  | PyNone.

Definition FEATURE_EXTRACTORS : list string := ["identity"; "BERT"; "TFIDF"].

(** The [choices] of the [--feature_extractor] command-line flag. *)
Definition feature_extractor_choices : list string := ["identity"; "BERT"; "TFIDF"].

Definition extract_features (data : dataset) (feature_extractor : string)
    (verbose : bool) : M extracted :=
  py_assert (bool_decide (feature_extractor ∈ FEATURE_EXTRACTORS)) ;;;
  if decide (feature_extractor = "identity") then
    ret (Identity data)
  else if decide (feature_extractor = "TFIDF") then
    m <- pure_call (tfidf_matrix data) ;;
    when verbose (print ("Dataset dimensions: " +:+ shape_repr m)) ;;;
    ret (Dense m)
  else if decide (feature_extractor = "BERT") then
    raise NotImplementedError
  else
    ret PyNone.

(** ** What the harness expects of its collaborators *)

(** The exception [cluster] raises on an identifier outside [ALGORITHMS]:
    the failed [assert], or with [assert] stripped the [ValueError] of the
    final [else]. *)
Definition unsupported (semisupervised_algo : string) : exn :=
  if py_debug then AssertionError
  else ValueError ("Algorithm " +:+ semisupervised_algo +:+ " not supported.").

(** A fit returns normally, with one cluster per point. *)
Definition returns_assignment (n : nat) (r : (exn + list Z) * world) : Prop :=
  ∃ assignment w, r = (inr assignment, w) ∧ length assignment = n.

(** On these inputs no collaborator fails: every fit returns an assignment
    as long as the Feature Matrix (the seeded ones when handed a partial
    labelling of that length), the active learner returns its constraints,
    and the metrics score any two vectors of equal length. *)
Definition collaborators_return (features : list feature) (labels : list Z)
    (num_clusters : Z) (max_feedback_given : option Z) : Prop :=
  let n := length features in
  (∀ w, returns_assignment n (KMeans_fit num_clusters features w)) ∧
  (∀ w, ∃ pairwise_constraints w',
     MinMax_fit num_clusters features labels max_feedback_given w =
     (inr pairwise_constraints, w')) ∧
  (∀ ml cl w, returns_assignment n (PCKMeans_fit num_clusters features ml cl w)) ∧
  (∀ y w, length y = n →
     returns_assignment n (ConstrainedKMeans_fit num_clusters features y w)) ∧
  (∀ y w, length y = n →
     returns_assignment n (SeededKMeans_fit num_clusters features y w)) ∧
  (∀ truth predicted, length truth = length predicted →
     (∃ s, adjusted_rand_score truth predicted = inr s) ∧
     (∃ s, normalized_mutual_info_score truth predicted = inr s)).

(** [r] is what the fits that [cluster] runs for [semisupervised_algo]
    end with from some state of the world: the assignment of the fitted
    clusterer, or the exception one of the fits raised.  The seeded
    algorithms are handed some vector with one entry per paired point. *)
Definition fit_outcome (semisupervised_algo : string) (features : list feature)
    (labels : list Z) (num_clusters : Z) (max_feedback_given : option Z)
    (r : exn + list Z) : Prop :=
  (semisupervised_algo = "KMeans" ∧
   ∃ w, (KMeans_fit num_clusters features w).1 = r) ∨
  (semisupervised_algo = "PCKMeans" ∧
   ∃ w, match MinMax_fit num_clusters features labels max_feedback_given w with
        | (inl e, _) => r = inl e
        | (inr pairwise_constraints, w') =>
            (PCKMeans_fit num_clusters features
               pairwise_constraints.1 pairwise_constraints.2 w').1 = r
        end) ∨
  (semisupervised_algo = "ConstrainedKMeans" ∧
   ∃ y w, length y = (length features `min` length labels)%nat ∧
          (ConstrainedKMeans_fit num_clusters features y w).1 = r) ∨
  (semisupervised_algo = "SeededKMeans" ∧
   ∃ y w, length y = (length features `min` length labels)%nat ∧
          (SeededKMeans_fit num_clusters features y w).1 = r).

(** The exception [e] came out of an external call made for
    [semisupervised_algo]: out of one of its fits, or out of one of the two
    metrics on the label vector and the assignment of the fitted
    clusterer. *)
Definition external_failure (semisupervised_algo : string) (features : list feature)
    (labels : list Z) (num_clusters : Z) (max_feedback_given : option Z) (e : exn) : Prop :=
  fit_outcome semisupervised_algo features labels num_clusters max_feedback_given (inl e) ∨
  ∃ predicted,
    fit_outcome semisupervised_algo features labels num_clusters max_feedback_given
      (inr predicted) ∧
    (adjusted_rand_score labels predicted = inl e ∨
     (∃ s, adjusted_rand_score labels predicted = inr s) ∧
     normalized_mutual_info_score labels predicted = inl e).

(** [algo_results[semisupervised_algo]], read as the [defaultdict] reads it. *)
Definition records_of (algo_results : gmap string (list metric_record))
    (semisupervised_algo : string) : list metric_record :=
  default [] (algo_results !! semisupervised_algo).

(** How often an identifier is listed. *)
Definition occurrences (semisupervised_algo : string) (algorithms : list string) : nat :=
  length (filter (λ a, a = semisupervised_algo) algorithms).

End Harness.

Arguments state : clear implicits.
Arguments state {Env}.

(** ** What the specification says about the seed sampler, in its own words *)

(** The number of entries of [out] equal to [l]. *)
Definition count (l : Z) (out : list Z) : nat := length (filter (λ x, x = l) out).

(** The labels that [zip] pairs with a feature row. *)
Definition paired_labels {F} (features : list F) (labels : list Z) : list Z :=
  take (length features) labels.

(** The distinct labels, in order of first occurrence. *)
Definition first_occurrences (labels : list Z) : list Z :=
  fold_left (λ seen l, if decide (l ∈ seen) then seen else seen ++ [l]) labels [].

(** The positions that carry label [l], in input order. *)
Definition positions_of (l : Z) (labels : list Z) : list nat :=
  filter (λ i, labels !! i = Some l) (seq 0 (length labels)).

(** The reconstructed point order: points grouped by label, groups in order
    of first occurrence, input order within a group. *)
Definition regrouped_order (labels : list Z) : list nat :=
  concat ((λ l, positions_of l labels) <$> first_occurrences labels).

(** What a point shows once the points of [sampled] have been drawn: its
    own label when it is one of them, the sentinel when it is not. *)
Definition revealed (labels : list Z) (sampled : gset nat) (i : nat) : Z :=
  if decide (i ∈ sampled) then default UNKNOWN (labels !! i) else UNKNOWN.

(** ** Auxiliary notions for the proofs *)

(** The rows paired with label [l], in input order. *)
Definition points_of {F} (l : Z) (pairs : list (F * Z)) : list F :=
  (filter (λ p, p.2 = l) pairs).*1.

(** [marks] reveals exactly [k] positions of a group of [n] points with
    label [label] and puts the sentinel everywhere else. *)
Definition seeded (k : nat) (label : Z) (n : nat) (marks : list Z) : Prop :=
  ∃ sample : gset nat,
    size sample = k ∧ (∀ i, i ∈ sample → (i < n)%nat) ∧
    marks = (λ i, if decide (i ∈ sample) then label else UNKNOWN) <$> seq 0 n.

(** [marks] holds one seeded marking per label of [keys], the group of
    label [l] having [size_of l] points. *)
Definition markings (k : nat) (size_of : Z → nat) (keys : list Z)
    (marks : list (list Z)) : Prop :=
  Forall2 (λ l m, seeded k l (size_of l) m) keys marks.

(** The groups of a label vector with the rows themselves forgotten: each
    distinct label, in order of first occurrence, with as many placeholders
    as it has points. *)
Definition label_groups (labels : list Z) : list (Z * list ()) :=
  (λ l, (l, replicate (count l labels) ())) <$> first_occurrences labels.


(** ** A concrete environment

    A small deterministic stand-in for the collaborators: the random source
    is a counter, a sample of [k] out of [n] is a window of [k] consecutive
    positions modulo [n], and the clusterers assign round robin. *)

Module Demo.

Definition window (n k w : nat) : list nat * nat :=
  ((λ i, (w + i) mod n)%nat <$> seq 0 k, S w).

Definition round_robin (num_clusters : Z) (n w : nat) : list Z :=
  (λ i, Z.of_nat (w + i) mod num_clusters) <$> seq 0 n.

Definition fit (num_clusters : Z) (n : nat) (w : nat) : (exn + list Z) * nat :=
  if decide (0 < num_clusters) then (inr (round_robin num_clusters n w), S w)
  else (inl (LibraryError "n_clusters must be positive"), w).

Definition seeded_fit (num_clusters : Z) (n : nat) (y : list Z) (w : nat)
    : (exn + list Z) * nat :=
  if decide (0 < num_clusters)
  then (inr (zip_with (λ s a, if decide (s = -1) then a else s) y
               (round_robin num_clusters n w)), S w)
  else (inl (LibraryError "n_clusters must be positive"), w).

(** The number of positions on which two assignments agree, out of 100. *)
Definition agreement (truth predicted : list Z) : exn + Z :=
  if decide (length truth = length predicted) then
    inr (100 * Z.of_nat (length (filter (λ p, p.1 = p.2) (zip truth predicted)))
           `div` Z.max 1 (Z.of_nat (length truth)))
  else inl (LibraryError "inconsistent numbers of samples").

Lemma window_NoDup n k w : (k ≤ n)%nat → NoDup (window n k w).1.
Proof.
  intros Hk. simpl. apply NoDup_fmap_2_strong; [|apply NoDup_seq].
  intros i j [_ Hi]%elem_of_seq [_ Hj]%elem_of_seq Heq.
  assert (Hn : n ≠ 0%nat) by lia.
  pose proof (Nat.div_mod_eq (w + i) n) as Ei.
  pose proof (Nat.div_mod_eq (w + j) n) as Ej.
  pose proof (Nat.mod_upper_bound (w + i) n Hn) as Bi.
  rewrite Heq in Ei.
  assert (((w + i) `div` n) = ((w + j) `div` n))%nat by nia.
  nia.
Qed.

Lemma window_length n k w : (k ≤ n)%nat → length (window n k w).1 = k.
Proof. intros _. simpl. by rewrite length_fmap, length_seq. Qed.

Lemma window_bound n k w i : (k ≤ n)%nat → i ∈ (window n k w).1 → (i < n)%nat.
Proof.
  intros Hk. simpl. intros (j & -> & [_ Hj]%elem_of_seq)%list_elem_of_fmap.
  apply Nat.mod_upper_bound. lia.
Qed.

Definition env (debug : bool) : Environment := {|
  world := nat;
  feature := Z;
  constraints := list (nat * nat);
  score := Z;
  dataset := list string;
  matrix := list (list Z);
  py_debug := debug;
  choose := window;
  choose_NoDup := window_NoDup;
  choose_length := window_length;
  choose_bound := window_bound;
  set_seed := λ seed _, Z.to_nat seed;
  KMeans_fit := λ num_clusters features, fit num_clusters (length features);
  MinMax_fit := λ _ _ _ _ w, (inr ([], []), S w);
  PCKMeans_fit := λ num_clusters features _ _, fit num_clusters (length features);
  ConstrainedKMeans_fit := λ num_clusters features y,
    seeded_fit num_clusters (length features) y;
  SeededKMeans_fit := λ num_clusters features y,
    seeded_fit num_clusters (length features) y;
  adjusted_rand_score := agreement;
  normalized_mutual_info_score := agreement;
  tfidf_matrix := λ docs, inr ((λ d, [Z.of_nat (String.length d)]) <$> docs);
  shape_repr := λ m, "(" +:+ pretty (length m) +:+ ", 1)";
|}.

(** The state a run starts from. *)
Definition start (debug : bool) (w : nat) : @state (env debug) :=
  @mkState (env debug) w [] [].

End Demo.

(** * The rest of the code *)

(** ** The check on the labels in the main script

    [assert set(y) == set(range(len(set(y))))], as a test. *)
Definition canonical_labels (y : list Z) : bool :=
  bool_decide
    ((list_to_set y : gset Z) =
     list_to_set (range (Z.of_nat (size (list_to_set y : gset Z))))).

(** ** More of what can be said about the seed sampler *)

(** The label vector itself in the reconstructed order: each distinct label,
    in order of first occurrence, as often as it occurs. *)
Definition grouped_labels (labels : list Z) : list Z :=
  concat ((λ l, replicate (count l labels) l) <$> first_occurrences labels).

(** Equal labels sit next to each other. *)
Definition contiguous (labels : list Z) : Prop :=
  ∀ (i j k : nat) (l : Z),
    (i < j < k)%nat → labels !! i = Some l → labels !! k = Some l → labels !! j = Some l.

(** The random source after one draw per group, in order. *)
Definition draws `{Env : Environment} (k : Z) (sizes : list nat) (w : world) : world :=
  fold_left (λ w n, (choose n (Z.to_nat k) w).2) sizes w.

(** ** Notions for comparing runs *)

Section Runs.
Context `{Env : Environment}.

(** Two states with the same world and, when [with_fits], the same record
    of entered fits; standard output is left out of the comparison. *)
Definition sim (with_fits : bool) (st st' : state) : Prop :=
  ext st = ext st' ∧ (with_fits = true → fits st = fits st').

(** From similar states the two computations end alike and in similar
    states. *)
Definition related {A} (with_fits : bool) (m m' : M A) : Prop :=
  ∀ st st', sim with_fits st st' →
    (m st).1 = (m' st').1 ∧ sim with_fits (m st).2 (m' st').2.

(** From any two states the two computations end alike and in states with
    the same world. *)
Definition alike {A} (m m' : M A) : Prop :=
  ∀ st st', (m st).1 = (m' st').1 ∧ sim false (m st).2 (m' st').2.

(** The computation leaves a component of the state as it found it. *)
Definition keeps {A} (component : state → list string) (m : M A) : Prop :=
  ∀ st, component (m st).2 = component st.

(** [set_seed] overwrites the whole world. *)
Definition set_seed_resets : Prop := ∀ seed w w', set_seed seed w = set_seed seed w'.

End Runs.

(** ** [wrappers.py] *)

(** The collaborators of the two wrappers. *)
Class LLMLibrary `{Env : Environment} : Type := {
  document : Type;
  (** a [GPT3Oracle] *)
  oracle : Type;
  (** a sentence encoder *)
  encoder : Type;
  (** the float [w] of [PCKMeans] *)
  weight : Type;

  (** [GPT3Oracle(features, prompt, documents, dataset_name=None,
      prompt_suffix=..., text_type=..., cache_file=..., max_queries_cnt=...)] *)
  GPT3Oracle : list feature → string → list document → string → string →
               option string → Z → world → (exn + oracle) * world;
  (** [SimilarityFinder(n_clusters).fit(features, oracle=oracle)], giving
      [pairwise_constraints_] *)
  SimilarityFinder_fit : Z → list feature → oracle → world →
                         (exn + constraints * constraints) * world;
  (** [DistanceBasedSelector(n_clusters).fit(features, oracle=oracle)] *)
  DistanceBasedSelector_fit : Z → list feature → oracle → world →
                              (exn + constraints * constraints) * world;
  (** [PCKMeans(n_clusters, init=..., normalize_vectors=True,
      split_normalization=True, w=...).fit(features, ml, cl)] *)
  PCKMeans_normalized_fit : Z → string → weight → list feature →
                            constraints → constraints → world → (exn + list Z) * world;
  (** [os.path.exists(oracle.cache_file)] *)
  cache_file_exists : oracle → world → exn + bool;
  (** [oracle.cache_writer.close()] *)
  cache_writer_close : oracle → world → (exn + ()) * world;
  (** [SentenceTransformer(name)] *)
  SentenceTransformer : string → world → (exn + encoder) * world;
  (** [GPTExpansionClustering(features, documents, encoder_model=...,
      n_clusters=..., dataset_name=None, prompt=..., text_type=...,
      prompt_for_encoder=..., cache_file_name=..., keep_original_entity=False,
      split=None, side_information=None, read_only=False,
      instruction_only=False, demonstration_only=False).fit(features)] *)
  GPTExpansionClustering_fit : list feature → list document → encoder → Z →
                               string → string → option string → option string →
                               world → (exn + list Z) * world;
}.

Section Wrappers.
Context `{LLM : LLMLibrary}.

Notation "x <- m ;; k" := (bind m (λ x, k))
  (at level 100, m at next level, right associativity, only parsing).
Notation "m ;;; k" := (bind m (λ _, k))
  (at level 100, right associativity, only parsing).

Definition LLMPairwiseClustering (features : list feature) (documents : list document)
    (num_clusters : Z) (prompt text_type prompt_suffix : string)
    (max_feedback_given : Z) (pckmeans_w : weight) (cache_file : option string)
    (constraint_selection_algorithm kmeans_init : string)
    : M (list Z * (constraints * constraints)) :=
  entering "GPT3Oracle" ;;;
  oracle <- call (GPT3Oracle features prompt documents prompt_suffix text_type
                    cache_file max_feedback_given) ;;
  print "Collecting Constraints" ;;;
  pairwise_constraints <-
    (if decide (constraint_selection_algorithm = "SimilarityFinder") then
       entering "SimilarityFinder.fit" ;;;
       call (SimilarityFinder_fit num_clusters features oracle)
     else
       entering "DistanceBasedSelector.fit" ;;;
       call (DistanceBasedSelector_fit num_clusters features oracle)) ;;
  print "Training PCKMeans" ;;;
  entering "PCKMeans.fit" ;;;
  assignment <- call (PCKMeans_normalized_fit num_clusters kmeans_init pckmeans_w features
                        pairwise_constraints.1 pairwise_constraints.2) ;;
  cache_exists <- call (λ w, (cache_file_exists oracle w, w)) ;;
  (if cache_exists : bool then
     entering "cache_writer.close" ;;;
     call (cache_writer_close oracle)
   else ret ()) ;;;
  ret (assignment, pairwise_constraints).

Definition LLMKeyphraseClustering (features : list feature) (documents : list document)
    (num_clusters : Z) (prompt text_type : string) (encoder_model : option encoder)
    (prompt_for_encoder cache_file : option string) : M (list Z) :=
  encoder_model <-
    match encoder_model with
    | None =>
        entering "SentenceTransformer" ;;;
        call (SentenceTransformer
                "sentence-transformers/distilbert-base-nli-stsb-mean-tokens")
    | Some given => ret given
    end ;;
  entering "GPTExpansionClustering.fit" ;;;
  assignment <- call (GPTExpansionClustering_fit features documents encoder_model
                        num_clusters prompt text_type prompt_for_encoder cache_file) ;;
  ret assignment.

End Wrappers.

(** A stand-in for the collaborators of the wrappers, over [Demo.env]: the
    oracle is its query budget, the cache file exists when a name was given
    for it, and a non-positive budget makes the selectors fail. *)
Module DemoLLM.

Definition select (num_clusters : Z) (n : nat) (budget : Z) (w : nat)
    : (exn + list (nat * nat) * list (nat * nat)) * nat :=
  if decide (0 < budget) then (inr ([(0, 1)%nat], [(0, n)%nat]), S w)
  else (inl (LibraryError "maximum queries reached"), w).

Definition llm (debug : bool) : @LLMLibrary (Demo.env debug) :=
  @Build_LLMLibrary (Demo.env debug)
    (* document, oracle, encoder, weight *)
    string (Z * option string) string Z
    (* GPT3Oracle *)
    (λ _ _ _ _ _ cache_file budget w, (inr (budget, cache_file), w))
    (* SimilarityFinder_fit, DistanceBasedSelector_fit *)
    (λ num_clusters features o, select num_clusters (length features) o.1)
    (λ num_clusters features o, select num_clusters (length features + 1) o.1)
    (* PCKMeans_normalized_fit *)
    (λ num_clusters _ _ features _ _, Demo.fit num_clusters (length features))
    (* cache_file_exists, cache_writer_close *)
    (λ o _, inr (bool_decide (is_Some o.2)))
    (λ _ w, (inr (), w))
    (* SentenceTransformer *)
    (λ name w, (inr name, w))
    (* GPTExpansionClustering_fit *)
    (λ features _ _ num_clusters _ _ _ _, Demo.fit num_clusters (length features)).

End DemoLLM.

(** * Properties *)

(** ** Built-ins *)

Section Builtins.
Context `{Env : Environment}.

Lemma enumerate_snoc {A} (l : list A) (x : A) :
  enumerate (l ++ [x]) = enumerate l ++ [(length l, x)].
Proof.
  unfold enumerate. rewrite length_app. simpl.
  replace (length l + 1)%nat with (S (length l)) by lia.
  rewrite seq_S. simpl. rewrite zip_with_app; [done|by rewrite length_seq].
Qed.

Lemma enumerate_fmap_fst {A B} (h : nat → B) (l : list A) :
  (λ '(i, _), h i) <$> enumerate l = h <$> seq 0 (length l).
Proof.
  unfold enumerate.
  rewrite <- (fst_zip (seq 0 (length l)) l) at 2 by (by rewrite length_seq).
  rewrite <- list_fmap_compose. apply list_fmap_ext. by intros ? [].
Qed.

Lemma length_enumerate {A} (l : list A) : length (enumerate l) = length l.
Proof. unfold enumerate. rewrite length_zip_with, length_seq. lia. Qed.

Lemma snd_zip_take {A B} (l : list A) (k : list B) :
  (zip l k).*2 = take (length l) k.
Proof.
  revert k. induction l as [|a l IH]; intros [|b k]; simpl; try done.
  by rewrite IH.
Qed.

Lemma length_range (n : Z) : length (range n) = Z.to_nat n.
Proof. unfold range. by rewrite length_fmap, length_seq. Qed.

Lemma range_succ (n : nat) : range (Z.of_nat (S n)) = range (Z.of_nat n) ++ [Z.of_nat n].
Proof.
  unfold range. rewrite !Nat2Z.id, seq_S. by rewrite fmap_app.
Qed.

(** Appending to a dictionary that tabulates [g] over distinct keys. *)
Lemma dd_append_present {A} (g : Z → list A) (keys : list Z) (l : Z) (v : A) :
  NoDup keys → l ∈ keys →
  dd_append l v ((λ x, (x, g x)) <$> keys) =
  (λ x, (x, g x ++ if decide (x = l) then [v] else [])) <$> keys.
Proof.
  induction 1 as [|x keys Hx Hnd IH]; intros Hl; [by apply elem_of_nil in Hl|].
  csimpl. destruct (decide (x = l)) as [->|Hne].
  - f_equal. apply list_fmap_ext. intros i y Hy.
    apply list_elem_of_lookup_2 in Hy.
    destruct (decide (y = l)) as [Heq|]; [by subst|by rewrite app_nil_r].
  - rewrite app_nil_r. f_equal. apply IH.
    apply elem_of_cons in Hl as [->|]; done.
Qed.

Lemma dd_append_absent {A} (g : Z → list A) (keys : list Z) (l : Z) (v : A) :
  l ∉ keys →
  dd_append l v ((λ x, (x, g x)) <$> keys) = ((λ x, (x, g x)) <$> keys) ++ [(l, [v])].
Proof.
  induction keys as [|x keys IH]; intros Hl; [done|].
  apply not_elem_of_cons in Hl as [Hne Hl]. csimpl.
  destruct (decide (x = l)); [congruence|]. by rewrite IH.
Qed.

Lemma elem_of_concat {A} (y : A) (ls : list (list A)) :
  y ∈ concat ls → ∃ m, y ∈ m ∧ m ∈ ls.
Proof.
  induction ls as [|m ls IH]; simpl; [by intros ?%elem_of_nil|].
  intros [Hy|Hy]%elem_of_app.
  - exists m. split; [done|by left].
  - destruct (IH Hy) as (m' & ? & ?). exists m'. split; [done|by right].
Qed.

(** [np.array] keeps the number of entries, and keeps the entries
    themselves when all of them fit int64. *)
Lemma length_np_array (l : list Z) : length (np.array l) = length l.
Proof. unfold np.array. destruct (np.result_type l); by rewrite ?length_fmap. Qed.

Lemma dtype_of_int_int64 (x : Z) : np.is_int64 x → np.dtype_of_int x = np.int64.
Proof. intros Hx. unfold np.dtype_of_int. by rewrite bool_decide_eq_true_2. Qed.

Lemma result_type_int64 (x : Z) (l : list Z) :
  Forall np.is_int64 (x :: l) → np.result_type (x :: l) = np.int64.
Proof.
  intros [Hx Hl]%Forall_cons. unfold np.result_type.
  rewrite (dtype_of_int_int64 x Hx).
  induction Hl as [|y l Hy _ IH]; [done|].
  simpl. by rewrite (dtype_of_int_int64 y Hy).
Qed.

Lemma np_array_exact (l : list Z) : Forall np.is_int64 l → np.array l = l.
Proof.
  intros Hl. destruct l as [|x l]; [done|].
  unfold np.array. by rewrite result_type_int64.
Qed.

Lemma bind_ret_state {A B} (m : M A) (g : A → B) (st : state) :
  (bind m (λ a, ret (g a)) st).2 = (m st).2.
Proof. unfold bind, ret. by destruct (m st) as [[e|a] st']. Qed.

End Builtins.

(** ** The first loop of the seed sampler: grouping by label *)

Section Grouping.
Context `{Env : Environment}.

Lemma filter_ext_in {A} (P Q : A → Prop) `{∀ x, Decision (P x)} `{∀ x, Decision (Q x)}
    (l : list A) :
  (∀ x, x ∈ l → P x ↔ Q x) → filter P l = filter Q l.
Proof.
  induction l as [|a l IH]; intros Hext; [done|].
  rewrite !filter_cons.
  rewrite IH by (intros x Hx; apply Hext; by right).
  destruct (decide (P a)) as [HP|HP], (decide (Q a)) as [HQ|HQ]; try done;
    exfalso; apply (Hext a) in HP || apply (Hext a) in HQ; done || by left.
Qed.

Lemma first_occurrences_snoc (labels : list Z) (l : Z) :
  first_occurrences (labels ++ [l]) =
  if decide (l ∈ first_occurrences labels) then first_occurrences labels
  else first_occurrences labels ++ [l].
Proof. unfold first_occurrences. by rewrite fold_left_app. Qed.

Lemma elem_of_first_occurrences (labels : list Z) (x : Z) :
  x ∈ first_occurrences labels ↔ x ∈ labels.
Proof.
  induction labels as [|l labels IH] using rev_ind; [done|].
  rewrite first_occurrences_snoc, elem_of_app, list_elem_of_singleton.
  case_decide as Hl; rewrite ?elem_of_app, ?list_elem_of_singleton, IH.
  - split; [tauto|]. intros [Hx| ->]; [done|]. by apply IH.
  - done.
Qed.

Lemma NoDup_first_occurrences (labels : list Z) : NoDup (first_occurrences labels).
Proof.
  induction labels as [|l labels IH] using rev_ind; [constructor|].
  rewrite first_occurrences_snoc. case_decide as Hl; [done|].
  apply NoDup_app. split_and!; [done| |apply NoDup_singleton].
  intros x Hx ->%list_elem_of_singleton. done.
Qed.

Lemma positions_of_snoc (x : Z) (labels : list Z) (l : Z) :
  positions_of x (labels ++ [l]) =
  positions_of x labels ++ if decide (l = x) then [length labels] else [].
Proof.
  unfold positions_of. rewrite length_app, seq_app, filter_app. simpl. f_equal.
  - apply filter_ext_in. intros i [_ Hi]%elem_of_seq.
    by rewrite lookup_app_l by lia.
  - rewrite filter_cons, filter_nil, list_lookup_middle by done.
    destruct (decide (l = x)) as [->|Hne]; [by rewrite decide_True|].
    rewrite decide_False; [done|congruence].
Qed.

Lemma positions_of_absent (x : Z) (labels : list Z) :
  x ∉ labels → positions_of x labels = [].
Proof.
  intros Hx. induction labels as [|l labels IH] using rev_ind; [done|].
  rewrite positions_of_snoc. apply not_elem_of_app in Hx as [Hx Hl].
  rewrite IH by done. rewrite decide_False; [done|].
  intros ->. apply Hl. by left.
Qed.

Lemma points_of_snoc {F} (x : Z) (pairs : list (F * Z)) (f : F) (l : Z) :
  points_of x (pairs ++ [(f, l)]) =
  points_of x pairs ++ if decide (l = x) then [f] else [].
Proof.
  unfold points_of. rewrite filter_app, fmap_app. f_equal.
  rewrite filter_cons, filter_nil. simpl. by destruct (decide (l = x)).
Qed.

Lemma points_of_absent {F} (x : Z) (pairs : list (F * Z)) :
  x ∉ pairs.*2 → points_of x pairs = [].
Proof.
  intros Hx. induction pairs as [|[f l] pairs IH] using rev_ind; [done|].
  rewrite points_of_snoc. rewrite fmap_app in Hx.
  apply not_elem_of_app in Hx as [Hx Hl].
  rewrite IH by done. rewrite decide_False; [done|].
  intros ->. apply Hl. by left.
Qed.

Lemma length_points_of {F} (x : Z) (pairs : list (F * Z)) :
  length (points_of x pairs) = count x pairs.*2.
Proof.
  unfold points_of, count. rewrite length_fmap.
  induction pairs as [|[f l] pairs IH]; [done|].
  rewrite fmap_cons, !filter_cons. simpl.
  destruct (decide (l = x)); simpl; by rewrite IH.
Qed.

Lemma length_positions_of (x : Z) (labels : list Z) :
  length (positions_of x labels) = count x labels.
Proof.
  induction labels as [|l labels IH] using rev_ind; [done|].
  rewrite positions_of_snoc, length_app, IH. unfold count.
  rewrite filter_app, length_app, filter_cons, filter_nil.
  by destruct (decide (l = x)).
Qed.

Lemma grouped_snoc {F} (pairs : list (F * Z)) (f : F) (l : Z) :
  grouped (pairs ++ [(f, l)]) =
  (dd_append l f (grouped pairs).1, dd_append l (length pairs) (grouped pairs).2).
Proof.
  unfold grouped. rewrite enumerate_snoc, fold_left_app. simpl.
  by destruct (fold_left _ _ _).
Qed.

Lemma tabulate_snoc {A} (g : Z → list A) (labels : list Z) (l : Z) (v : A) :
  (l ∉ labels → g l = []) →
  dd_append l v ((λ x, (x, g x)) <$> first_occurrences labels) =
  (λ x, (x, g x ++ if decide (l = x) then [v] else [])) <$>
    first_occurrences (labels ++ [l]).
Proof.
  intros Hg. rewrite first_occurrences_snoc. case_decide as Hl.
  - rewrite dd_append_present by (done || apply NoDup_first_occurrences).
    apply list_fmap_ext. intros _ x _. by repeat case_decide.
  - rewrite dd_append_absent by done. rewrite fmap_app. f_equal.
    + apply list_fmap_ext. intros i x Hx. apply list_elem_of_lookup_2 in Hx.
      rewrite decide_False; [by rewrite app_nil_r|by intros ->].
    + simpl. rewrite decide_True by done. rewrite Hg; [done|].
      by rewrite <- elem_of_first_occurrences.
Qed.

(** The dictionaries hold, for each distinct label in order of first
    occurrence, its rows and its input positions in input order. *)
Lemma grouped_spec {F} (pairs : list (F * Z)) :
  grouped pairs =
  ((λ l, (l, points_of l pairs)) <$> first_occurrences pairs.*2,
   (λ l, (l, positions_of l pairs.*2)) <$> first_occurrences pairs.*2).
Proof.
  induction pairs as [|[f l] pairs IH] using rev_ind; [done|].
  rewrite grouped_snoc, IH, fmap_app. simpl. f_equal.
  - rewrite tabulate_snoc by apply points_of_absent.
    apply list_fmap_ext. intros _ x _. by rewrite points_of_snoc.
  - rewrite tabulate_snoc by apply positions_of_absent.
    apply list_fmap_ext. intros _ x _.
    by rewrite positions_of_snoc, length_fmap.
Qed.

Lemma points_by_cluster_spec {F} (features : list F) (labels : list Z) :
  points_by_cluster features labels =
  (λ l, (l, points_of l (zip features labels))) <$>
    first_occurrences (paired_labels features labels).
Proof.
  unfold points_by_cluster, group_by_label.
  by rewrite grouped_spec, snd_zip_take.
Qed.

Lemma original_index_by_cluster_spec {F} (features : list F) (labels : list Z) :
  original_index_by_cluster features labels =
  (λ l, (l, positions_of l (paired_labels features labels))) <$>
    first_occurrences (paired_labels features labels).
Proof.
  unfold original_index_by_cluster, group_by_label.
  by rewrite grouped_spec, snd_zip_take.
Qed.

End Grouping.

(** ** The second loop of the seed sampler: drawing the seeds *)

Section Sampling.
Context `{Env : Environment}.

Lemma random_sample_ok (n : nat) (k : Z) (st : state) :
  0 ≤ k ≤ Z.of_nat n →
  ∃ drawn w,
    random_sample n k st = (inr drawn, mkState w (stdout st) (fits st)) ∧
    NoDup drawn ∧ length drawn = Z.to_nat k ∧ ∀ i, i ∈ drawn → (i < n)%nat.
Proof.
  intros Hk. unfold random_sample. rewrite bool_decide_eq_true_2 by done.
  assert (Hle : (Z.to_nat k ≤ n)%nat) by lia.
  pose proof (choose_NoDup n _ (ext st) Hle) as Hnd.
  pose proof (choose_length n _ (ext st) Hle) as Hlen.
  pose proof (λ i, choose_bound n _ (ext st) i Hle) as Hb.
  unfold call. destruct (choose n (Z.to_nat k) (ext st)) as [drawn w].
  by exists drawn, w.
Qed.

Lemma random_sample_fail (n : nat) (k : Z) (st : state) :
  ¬ (0 ≤ k ≤ Z.of_nat n) → random_sample n k st = (inl SAMPLE_ERROR, st).
Proof.
  intros Hk. unfold random_sample. by rewrite bool_decide_eq_false_2 by done.
Qed.

Lemma seed_group_ok {F} (k label : Z) (points : list F) (acc : list Z) (st : state) :
  0 ≤ k ≤ Z.of_nat (length points) →
  ∃ marks w,
    seed_group k (label, points) acc st =
      (inr (acc ++ marks), mkState w (stdout st) (fits st)) ∧
    seeded (Z.to_nat k) label (length points) marks.
Proof.
  intros Hk. destruct (random_sample_ok _ _ st Hk) as (drawn & w & Hrun & Hnd & Hlen & Hb).
  exists (mark_group label (list_to_set drawn) points), w. split.
  - unfold seed_group, bind. by rewrite Hrun.
  - exists (list_to_set drawn). split_and!.
    + by rewrite size_list_to_set.
    + intros i Hi%elem_of_list_to_set. by apply Hb.
    + unfold mark_group. apply enumerate_fmap_fst.
Qed.

Lemma seed_group_fail {F} (k label : Z) (points : list F) (acc : list Z) (st : state) :
  ¬ (0 ≤ k ≤ Z.of_nat (length points)) →
  seed_group k (label, points) acc st = (inl SAMPLE_ERROR, st).
Proof.
  intros Hk. unfold seed_group, bind. by rewrite random_sample_fail.
Qed.

(** When every group is large enough the loop returns, and what it appends
    is a seeded marking of each group in turn. *)
Lemma seed_loop_ok {F} (k : Z) (groups : list (Z * list F)) (acc : list Z) (st : state) :
  Forall (λ g, 0 ≤ k ≤ Z.of_nat (length g.2)) groups →
  ∃ marks w,
    for_each groups (seed_group k) acc st =
      (inr (acc ++ concat marks), mkState w (stdout st) (fits st)) ∧
    Forall2 (λ g m, seeded (Z.to_nat k) g.1 (length g.2) m) groups marks.
Proof.
  intros Hall. revert acc st.
  induction Hall as [|[label points] groups Hk _ IH]; intros acc st.
  - exists [], (ext st). split; [|constructor].
    simpl. rewrite app_nil_r. by destruct st.
  - destruct (seed_group_ok k label points acc st Hk) as (m & w & Hrun & Hm).
    destruct (IH (acc ++ m) (mkState w (stdout st) (fits st)))
      as (marks & w' & Hrest & Hmarks).
    exists (m :: marks), w'. split; [|by constructor].
    cbn [for_each]. unfold bind at 1. rewrite Hrun, Hrest. simpl. by rewrite app_assoc.
Qed.

(** As soon as one group is too small the loop raises. *)
Lemma seed_loop_fail {F} (k : Z) (groups : list (Z * list F)) (acc : list Z) (st : state) :
  Exists (λ g, ¬ (0 ≤ k ≤ Z.of_nat (length g.2))) groups →
  ∃ w, for_each groups (seed_group k) acc st =
       (inl SAMPLE_ERROR, mkState w (stdout st) (fits st)).
Proof.
  intros Hex. revert acc st.
  induction groups as [|[label points] groups IH]; intros acc st.
  - by apply Exists_nil in Hex.
  - cbn [for_each]. unfold bind at 1.
    destruct (decide (0 ≤ k ≤ Z.of_nat (length points))) as [Hk|Hk].
    + destruct (seed_group_ok k label points acc st Hk) as (m & w & -> & _).
      apply Exists_cons in Hex as [Hbad|Hex]; [done|].
      destruct (IH Hex (acc ++ m) (mkState w (stdout st) (fits st))) as (w' & ->).
      by exists w'.
    + rewrite seed_group_fail by done. exists (ext st). by destruct st.
Qed.

(** The loop looks at the label and the size of each group only. *)
Lemma seed_group_erase {F} (k : Z) (g : Z * list F) (acc : list Z) (st : state) :
  seed_group k g acc st = seed_group k (g.1, replicate (length g.2) ()) acc st.
Proof.
  destruct g as [label points]. unfold seed_group, bind. simpl.
  rewrite length_replicate. destruct (random_sample _ _ _) as [[e|drawn] st']; [done|].
  unfold ret, mark_group. rewrite !enumerate_fmap_fst. by rewrite length_replicate.
Qed.

Lemma seed_loop_erase {F} (k : Z) (groups : list (Z * list F)) (acc : list Z) (st : state) :
  for_each groups (seed_group k) acc st =
  for_each ((λ g, (g.1, replicate (length g.2) ())) <$> groups) (seed_group k) acc st.
Proof.
  revert acc st. induction groups as [|g groups IH]; intros acc st; [done|].
  rewrite fmap_cons. cbn [for_each]. unfold bind. rewrite (seed_group_erase k g).
  destruct (seed_group _ _ _ _) as [[e|acc'] st']; [done|]. apply IH.
Qed.

(** [sample_cluster_seeds] is a function of the paired labels alone. *)
Lemma sample_cluster_seeds_labels {F} (features : list F) (labels : list Z)
    (k : Z) (aggregate : string) (st : state) :
  sample_cluster_seeds features labels k aggregate st =
  bind (for_each (label_groups (paired_labels features labels)) (seed_group k) [])
    (λ labels', ret (np.array labels')) st.
Proof.
  assert ((λ g : Z * list F, (g.1, replicate (length g.2) ())) <$>
            points_by_cluster features labels =
          label_groups (paired_labels features labels)) as Hgroups.
  { rewrite points_by_cluster_spec. unfold label_groups. rewrite <- list_fmap_compose.
    apply list_fmap_ext. intros _ l _. simpl.
    by rewrite length_points_of, snd_zip_take. }
  unfold sample_cluster_seeds, bind. by rewrite seed_loop_erase, Hgroups.
Qed.

End Sampling.

(** ** Counting the entries of a seeded marking *)

Section Counting.

Lemma count_app (l : Z) (a b : list Z) : count l (a ++ b) = (count l a + count l b)%nat.
Proof. unfold count. by rewrite filter_app, length_app. Qed.

Lemma count_fmap {A} (h : A → Z) (l : Z) (xs : list A) :
  count l (h <$> xs) = length (filter (λ i, h i = l) xs).
Proof.
  unfold count. induction xs as [|x xs IH]; [done|].
  rewrite fmap_cons, !filter_cons. destruct (decide (h x = l)); simpl; by rewrite IH.
Qed.

Lemma count_absent (l : Z) (out : list Z) : l ∉ out → count l out = 0%nat.
Proof.
  intros Hl. unfold count. induction out as [|y out IH]; [done|].
  apply not_elem_of_cons in Hl as [Hne Hl].
  rewrite filter_cons, decide_False by done. by apply IH.
Qed.

Lemma count_all (l : Z) (out : list Z) :
  (∀ y, y ∈ out → y = l) → count l out = length out.
Proof.
  unfold count. induction out as [|y out IH]; intros Hall; [done|].
  rewrite filter_cons, decide_True by (apply Hall; by left).
  simpl. rewrite IH; [done|]. intros z Hz. apply Hall. by right.
Qed.

Lemma length_two_values (a b : Z) (out : list Z) :
  a ≠ b → (∀ y, y ∈ out → y = a ∨ y = b) → length out = (count a out + count b out)%nat.
Proof.
  intros Hab. unfold count. induction out as [|y out IH]; intros Hout; [done|].
  rewrite !filter_cons. simpl. rewrite IH by (intros z Hz; apply Hout; by right).
  destruct (Hout y) as [->| ->]; [by left| |].
  - rewrite decide_True, decide_False by done. simpl. lia.
  - rewrite decide_False, decide_True by done. simpl. lia.
Qed.

(** The positions below [n] that belong to a set of positions below [n] are
    as many as the set has elements. *)
Lemma length_filter_sample (sample : gset nat) (n : nat) :
  (∀ i, i ∈ sample → (i < n)%nat) →
  length (filter (λ i, i ∈ sample) (seq 0 n)) = size sample.
Proof.
  intros Hb. unfold size, set_size. simpl. apply Permutation_length.
  apply NoDup_Permutation.
  - apply NoDup_filter, NoDup_seq.
  - apply NoDup_elements.
  - intros i. rewrite list_elem_of_filter, elem_of_seq, elem_of_elements.
    split; [tauto|]. intros Hi. split; [done|]. specialize (Hb i Hi). lia.
Qed.

Lemma seeded_length (k : nat) (label : Z) (n : nat) (marks : list Z) :
  seeded k label n marks → length marks = n.
Proof. intros (sample & _ & _ & ->). by rewrite length_fmap, length_seq. Qed.

Lemma seeded_elem (k : nat) (label : Z) (n : nat) (marks : list Z) (y : Z) :
  seeded k label n marks → y ∈ marks → y = label ∨ y = UNKNOWN.
Proof.
  intros (sample & _ & _ & ->) (i & -> & _)%list_elem_of_fmap.
  case_decide; auto.
Qed.

Lemma seeded_lookup (k : nat) (label : Z) (n : nat) (marks : list Z) (i : nat) (y : Z) :
  seeded k label n marks → marks !! i = Some y → y = label ∨ y = UNKNOWN.
Proof. intros Hm Hi. eapply seeded_elem; [done|]. by eapply list_elem_of_lookup_2. Qed.

Lemma seeded_count_own (k : nat) (label : Z) (n : nat) (marks : list Z) :
  seeded k label n marks → label ≠ UNKNOWN → count label marks = k.
Proof.
  intros (sample & <- & Hb & ->) Hne. rewrite count_fmap.
  rewrite <- (length_filter_sample sample n Hb). f_equal.
  apply filter_ext_in. intros i _. case_decide; split; done.
Qed.

Lemma seeded_count_other (k : nat) (label : Z) (n : nat) (marks : list Z) (l : Z) :
  seeded k label n marks → l ≠ label → l ≠ UNKNOWN → count l marks = 0%nat.
Proof.
  intros Hm Hl Hu. apply count_absent. intros Hin.
  by destruct (seeded_elem _ _ _ _ _ Hm Hin).
Qed.

(** A marking splits into its [k] revealed entries and its sentinels. *)
Lemma seeded_split (k : nat) (label : Z) (n : nat) (marks : list Z) :
  seeded k label n marks →
  length marks = ((if decide (label = UNKNOWN) then 0 else k) + count UNKNOWN marks)%nat.
Proof.
  intros Hm. case_decide as Hl.
  - subst label. rewrite count_all; [done|].
    intros y Hy. by destruct (seeded_elem _ _ _ _ _ Hm Hy).
  - rewrite <- (seeded_count_own k label n marks Hm Hl).
    apply length_two_values; [done|]. intros y. by apply (seeded_elem k label n).
Qed.

Section Groups.
Context (k : nat) (size_of : Z → nat).

Local Abbreviation markings := (markings k size_of).

Lemma markings_elem (keys : list Z) (marks : list (list Z)) (y : Z) :
  markings keys marks → y ∈ concat marks → y ∈ keys ∨ y = UNKNOWN.
Proof.
  induction 1 as [|l m keys marks Hm _ IH]; simpl; [by intros ?%elem_of_nil|].
  rewrite elem_of_app, elem_of_cons. intros [Hy|Hy].
  - destruct (seeded_elem _ _ _ _ _ Hm Hy); auto.
  - destruct (IH Hy); auto.
Qed.

Lemma markings_count_absent (keys : list Z) (marks : list (list Z)) (l : Z) :
  markings keys marks → l ∉ keys → l ≠ UNKNOWN → count l (concat marks) = 0%nat.
Proof.
  intros Hm Hl Hu. apply count_absent. intros Hin.
  by destruct (markings_elem _ _ _ Hm Hin).
Qed.

Lemma markings_count (keys : list Z) (marks : list (list Z)) (l : Z) :
  markings keys marks → NoDup keys → l ∈ keys → l ≠ UNKNOWN →
  count l (concat marks) = k.
Proof.
  induction 1 as [|l' m keys marks Hm Hrest IH]; [by intros _ ?%elem_of_nil|].
  intros [Hl' Hnd]%NoDup_cons Hl Hu. simpl. rewrite count_app.
  destruct (decide (l = l')) as [->|Hne].
  - rewrite (seeded_count_own _ _ _ _ Hm Hu).
    rewrite (markings_count_absent keys marks l') by done. lia.
  - rewrite (seeded_count_other _ _ _ _ _ Hm Hne Hu).
    apply elem_of_cons in Hl as [?|Hl]; [done|]. by rewrite IH.
Qed.

Lemma markings_split (keys : list Z) (marks : list (list Z)) :
  markings keys marks →
  length (concat marks) =
  (k * length (filter (λ l, l ≠ UNKNOWN) keys) + count UNKNOWN (concat marks))%nat.
Proof.
  induction 1 as [|l m keys marks Hm _ IH]; simpl; [unfold count; simpl; lia|].
  rewrite length_app, count_app, IH, (seeded_split _ _ _ _ Hm), filter_cons.
  destruct (decide (l = UNKNOWN)) as [->|Hne].
  - rewrite decide_False by (by intros ?). lia.
  - rewrite decide_True by done. simpl. lia.
Qed.

(** Entry by entry, the markings line up with any lists of positions of the
    right sizes whose positions carry the label of their group. *)
Lemma markings_aligned (labels : list Z) (keys : list Z) (marks : list (list Z))
    (positions : Z → list nat) :
  markings keys marks →
  (∀ l, l ∈ keys → length (positions l) = size_of l) →
  (∀ l i, i ∈ positions l → labels !! i = Some l) →
  Forall2 (λ y i, labels !! i = Some y ∨ y = UNKNOWN)
    (concat marks) (concat (positions <$> keys)).
Proof.
  intros Hm Hlen Hpos.
  induction Hm as [|l m keys marks Hm _ IH]; [constructor|].
  csimpl. apply Forall2_app.
  - apply Forall2_same_length_lookup_2.
    + rewrite (seeded_length _ _ _ _ Hm), Hlen; [done|by left].
    + intros j y i Hy Hi. apply list_elem_of_lookup_2 in Hi.
      destruct (seeded_lookup _ _ _ _ _ _ Hm Hy) as [->|]; [|by right].
      left. by apply Hpos.
  - apply IH. intros l' Hl'. apply Hlen. by right.
Qed.

End Groups.

End Counting.

(** ** The reconstructed point order *)

Section Order.

Lemma concat_snoc_at (x : Z) (n : nat) (g : Z → list nat) (keys : list Z) :
  NoDup keys → x ∈ keys →
  concat ((λ l, g l ++ if decide (x = l) then [n] else []) <$> keys) ≡ₚ
  concat (g <$> keys) ++ [n].
Proof.
  induction 1 as [|d keys Hd Hnd IH]; intros Hx; [by apply elem_of_nil in Hx|].
  csimpl. destruct (decide (x = d)) as [->|Hne].
  - assert (Hsame : (λ l, g l ++ if decide (d = l) then [n] else []) <$> keys = g <$> keys).
    { apply list_fmap_ext. intros i l Hl. apply list_elem_of_lookup_2 in Hl.
      rewrite decide_False; [by rewrite app_nil_r|by intros <-]. }
    rewrite Hsame, <- !app_assoc. f_equiv. apply Permutation_app_comm.
  - rewrite app_nil_r, <- app_assoc. f_equiv. apply IH.
    apply elem_of_cons in Hx as [?|?]; done.
Qed.

Lemma regrouped_order_snoc (labels : list Z) (x : Z) :
  regrouped_order (labels ++ [x]) ≡ₚ regrouped_order labels ++ [length labels].
Proof.
  unfold regrouped_order.
  rewrite (list_fmap_ext _ (λ l, positions_of l labels ++
             if decide (x = l) then [length labels] else []))
    by (intros; apply positions_of_snoc).
  rewrite first_occurrences_snoc. case_decide as Hx.
  - apply concat_snoc_at; [apply NoDup_first_occurrences|done].
  - rewrite fmap_app, concat_app. simpl.
    rewrite decide_True, app_nil_r by done.
    rewrite positions_of_absent by (by rewrite <- elem_of_first_occurrences).
    simpl.
    rewrite (list_fmap_ext _ (λ l, positions_of l labels) (first_occurrences labels));
      [done|].
    intros i l Hl. apply list_elem_of_lookup_2 in Hl.
    rewrite decide_False; [by rewrite app_nil_r|by intros <-].
Qed.

(** The reconstructed order visits every input position exactly once. *)
Lemma regrouped_order_permutation (labels : list Z) :
  regrouped_order labels ≡ₚ seq 0 (length labels).
Proof.
  induction labels as [|x labels IH] using rev_ind; [done|].
  rewrite regrouped_order_snoc, IH, length_app. simpl.
  replace (length labels + 1)%nat with (S (length labels)) by lia.
  by rewrite seq_S.
Qed.

Lemma length_regrouped_order (labels : list Z) :
  length (regrouped_order labels) = length labels.
Proof. by rewrite regrouped_order_permutation, length_seq. Qed.

Lemma positions_of_label (labels : list Z) (l : Z) (i : nat) :
  i ∈ positions_of l labels → labels !! i = Some l.
Proof. unfold positions_of. by intros [? _]%list_elem_of_filter. Qed.

Lemma NoDup_positions_of (labels : list Z) (l : Z) : NoDup (positions_of l labels).
Proof. unfold positions_of. apply NoDup_filter, NoDup_seq. Qed.

(** A marking of the points at [positions], read by rank, is the marking of
    a set of those points, read by position. *)
Lemma marking_by_position (sample : gset nat) (label : Z) (positions : list nat)
    (offset : nat) :
  NoDup positions →
  ∃ sampled : gset nat,
    (∀ i, i ∈ sampled → i ∈ positions) ∧
    (λ r, if decide (r ∈ sample) then label else UNKNOWN) <$>
      seq offset (length positions) =
    (λ i, if decide (i ∈ sampled) then label else UNKNOWN) <$> positions ∧
    length (filter (λ i, i ∈ sampled) positions) =
    length (filter (λ r, r ∈ sample) (seq offset (length positions))).
Proof.
  intros Hnd. revert offset.
  induction Hnd as [|i positions Hi Hnd IH]; intros offset.
  { exists ∅. split_and!; [by intros i ?%elem_of_empty|done|done]. }
  destruct (IH (S offset)) as (sampled & Hsub & Hmarks & Hcount).
  assert (i ∉ sampled) as Hfresh by (intros Hin; by apply Hi, Hsub).
  destruct (decide (offset ∈ sample)) as [Hoff|Hoff].
  - assert (∀ j, j ∈ positions → j ∈ {[i]} ∪ sampled ↔ j ∈ sampled) as Hrest.
    { intros j Hj. rewrite elem_of_union, elem_of_singleton.
      split; [intros [->|?]; done|by right]. }
    exists ({[i]} ∪ sampled). split_and!.
    + intros j [->%elem_of_singleton|Hj]%elem_of_union; [by left|right; by apply Hsub].
    + csimpl. rewrite decide_True by done.
      rewrite decide_True by (apply elem_of_union; left; by apply elem_of_singleton).
      f_equal. rewrite Hmarks. apply list_fmap_ext. intros _ j Hj%list_elem_of_lookup_2.
      destruct (decide (j ∈ sampled)) as [Hin|Hin].
      * by rewrite decide_True by (by apply Hrest).
      * by rewrite decide_False by (by rewrite Hrest).
    + simpl. rewrite !filter_cons.
      rewrite decide_True by (apply elem_of_union; left; by apply elem_of_singleton).
      rewrite decide_True by done. simpl. rewrite <- Hcount. do 2 f_equal.
      by apply filter_ext_in.
  - exists sampled. split_and!.
    + intros j Hj. right. by apply Hsub.
    + csimpl. rewrite !decide_False by done. by rewrite Hmarks.
    + simpl. rewrite !filter_cons, !decide_False by done. done.
Qed.

(** A seeded marking of the points that carry [label] reveals a set of
    [k] of them. *)
Lemma seeded_revealed (k : nat) (labels : list Z) (label : Z) (marks : list Z) :
  seeded k label (count label labels) marks →
  ∃ sampled : gset nat,
    (∀ i, i ∈ sampled → i ∈ positions_of label labels) ∧
    marks = revealed labels sampled <$> positions_of label labels ∧
    length (filter (λ i, i ∈ sampled) (positions_of label labels)) = k.
Proof.
  intros (sample & Hsize & Hbound & ->).
  destruct (marking_by_position sample label (positions_of label labels) 0
              (NoDup_positions_of labels label)) as (sampled & Hsub & Hmarks & Hcount).
  rewrite length_positions_of in Hmarks, Hcount.
  exists sampled. split_and!; [done| |].
  - rewrite Hmarks. apply list_fmap_ext. intros _ i Hi%list_elem_of_lookup_2.
    unfold revealed. by rewrite (positions_of_label labels label i Hi).
  - by rewrite Hcount, length_filter_sample.
Qed.

(** The markings of all the groups reveal one set of points, [k] of each
    group, and follow the reconstructed order. *)
Lemma markings_revealed (k : nat) (labels : list Z) (keys : list Z)
    (marks : list (list Z)) :
  NoDup keys →
  markings k (λ l, count l labels) keys marks →
  ∃ sampled : gset nat,
    (∀ i, i ∈ sampled → ∃ l, l ∈ keys ∧ i ∈ positions_of l labels) ∧
    concat marks =
      revealed labels sampled <$> concat ((λ l, positions_of l labels) <$> keys) ∧
    (∀ l, l ∈ keys →
       length (filter (λ i, i ∈ sampled) (positions_of l labels)) = k).
Proof.
  intros Hnd Hm. induction Hm as [|l m keys marks Hl _ IH].
  { exists ∅. split_and!; [by intros i ?%elem_of_empty|done|by intros l ?%elem_of_nil]. }
  apply NoDup_cons in Hnd as [Hfresh Hnd].
  destruct (IH Hnd) as (rest & Hrest & Hmarks & Hcount).
  destruct (seeded_revealed k labels l m Hl) as (own & Hown & Hm & Hk).
  assert (∀ i l', i ∈ positions_of l labels → i ∈ positions_of l' labels → l' = l)
    as Hsame.
  { intros i l' Hi Hi'. apply positions_of_label in Hi, Hi'. congruence. }
  assert (∀ i, i ∈ positions_of l labels → i ∉ rest) as Hother.
  { intros i Hi (l' & Hl' & Hi')%Hrest. by rewrite (Hsame i l' Hi Hi') in Hl'. }
  assert (∀ i l', l' ∈ keys → i ∈ positions_of l' labels → i ∉ own) as Hothers.
  { intros i l' Hl' Hi' Hi%Hown. by rewrite (Hsame i l' Hi Hi') in Hl'. }
  assert (∀ i, i ∈ positions_of l labels → i ∈ own ↔ i ∈ own ∪ rest) as Hleft.
  { intros i Hi. rewrite elem_of_union. split; [by left|].
    intros [?|Hin]; [done|]. by destruct (Hother i Hi). }
  assert (∀ i l', l' ∈ keys → i ∈ positions_of l' labels → i ∈ rest ↔ i ∈ own ∪ rest)
    as Hright.
  { intros i l' Hl' Hi. rewrite elem_of_union. split; [by right|].
    intros [Hin|?]; [|done]. by destruct (Hothers i l' Hl' Hi). }
  exists (own ∪ rest). split_and!.
  - intros i [Hi|Hi]%elem_of_union.
    + exists l. split; [by left|by apply Hown].
    + destruct (Hrest i Hi) as (l' & Hl' & Hi'). exists l'. split; [by right|done].
  - csimpl. rewrite fmap_app. f_equal.
    + rewrite Hm. apply list_fmap_ext. intros _ i Hi%list_elem_of_lookup_2.
      unfold revealed. by rewrite (decide_ext _ _ _ _ (Hleft i Hi)).
    + rewrite Hmarks. apply list_fmap_ext. intros _ i Hi%list_elem_of_lookup_2.
      apply elem_of_concat in Hi as (ps & Hi & (l' & -> & Hl')%list_elem_of_fmap).
      unfold revealed. by rewrite (decide_ext _ _ _ _ (Hright i l' Hl' Hi)).
  - intros l' [->|Hl']%elem_of_cons.
    + rewrite <- Hk. f_equal. apply filter_ext_in. intros i Hi.
      symmetry. by apply Hleft.
    + rewrite <- (Hcount l' Hl'). f_equal. apply filter_ext_in. intros i Hi.
      symmetry. by apply (Hright i l').
Qed.

(** What is revealed of points with int64 labels fits int64. *)
Lemma revealed_int64 (labels : list Z) (sampled : gset nat) (positions : list nat) :
  Forall np.is_int64 labels →
  Forall np.is_int64 (revealed labels sampled <$> positions).
Proof.
  intros Hl. apply Forall_fmap, Forall_forall. intros i _. unfold revealed. simpl.
  assert (np.is_int64 UNKNOWN) as Hu by (unfold np.is_int64, UNKNOWN; lia).
  case_decide; [|done]. destruct (labels !! i) as [l|] eqn:Hi; [|done].
  rewrite Forall_forall in Hl. apply Hl. by eapply list_elem_of_lookup_2.
Qed.

(** The index dictionary of the code, read off group by group, is the
    reconstructed order. *)
Lemma original_index_by_cluster_order `{Env : Environment} {F}
    (features : list F) (labels : list Z) :
  concat (original_index_by_cluster features labels).*2 =
  regrouped_order (paired_labels features labels).
Proof.
  rewrite original_index_by_cluster_spec. unfold regrouped_order.
  by rewrite <- list_fmap_compose.
Qed.

Lemma paired_labels_same_length {F} (features : list F) (labels : list Z) :
  length features = length labels → paired_labels features labels = labels.
Proof. intros Hlen. unfold paired_labels. apply take_ge. lia. Qed.

Lemma length_paired_labels {F} (features : list F) (labels : list Z) :
  length (paired_labels features labels) = (length features `min` length labels)%nat.
Proof. unfold paired_labels. by rewrite length_take. Qed.

Lemma paired_labels_take {F} (features : list F) (labels : list Z) :
  let n := (length features `min` length labels)%nat in
  paired_labels (take n features) (take n labels) = paired_labels features labels.
Proof.
  intros n. unfold paired_labels. rewrite length_take, take_take.
  destruct (decide (length features ≤ length labels)%nat).
  - f_equal. lia.
  - rewrite (take_ge labels (length features)) by lia. apply take_ge. lia.
Qed.

Lemma elem_of_paired_labels {F} (features : list F) (labels : list Z) (l : Z) :
  l ∈ paired_labels features labels → l ∈ labels.
Proof. unfold paired_labels. apply subseteq_take. Qed.

End Order.

(** ** The seed sampler *)

Section SeedSampler.
Context `{Env : Environment} {F : Type}.
Implicit Types (features : list F) (labels : list Z) (k : Z) (st : state).

(** With enough points in every group the sampler returns one seeded
    marking per distinct paired label, in order of first occurrence; it
    touches neither standard output nor the clustering library. *)
Lemma sample_cluster_seeds_ok features labels k (aggregate : string) st :
  0 ≤ k →
  (∀ l, l ∈ paired_labels features labels →
        k ≤ Z.of_nat (count l (paired_labels features labels))) →
  ∃ marks w,
    sample_cluster_seeds features labels k aggregate st =
      (inr (np.array (concat marks)), mkState w (stdout st) (fits st)) ∧
    Forall2 (λ l m, seeded (Z.to_nat k) l (count l (paired_labels features labels)) m)
      (first_occurrences (paired_labels features labels)) marks.
Proof.
  intros Hk Hsize. rewrite sample_cluster_seeds_labels.
  set (ps := paired_labels features labels) in *.
  destruct (seed_loop_ok k (label_groups ps) [] st) as (marks & w & Hrun & Hmarks).
  { unfold label_groups. apply Forall_fmap, Forall_forall. intros l Hl. simpl.
    rewrite length_replicate. split; [done|].
    apply Hsize. by apply elem_of_first_occurrences. }
  exists marks, w. split; [unfold bind; by rewrite Hrun|].
  unfold label_groups in Hmarks. apply Forall2_fmap_l in Hmarks.
  eapply Forall2_impl; [done|]. intros l m. simpl. by rewrite length_replicate.
Qed.

Lemma sample_cluster_seeds_fail features labels k (aggregate : string) st :
  (∃ l, l ∈ paired_labels features labels ∧
        ¬ (0 ≤ k ≤ Z.of_nat (count l (paired_labels features labels)))) →
  ∃ w, sample_cluster_seeds features labels k aggregate st =
       (inl SAMPLE_ERROR, mkState w (stdout st) (fits st)).
Proof.
  intros (l & Hl & Hbad). rewrite sample_cluster_seeds_labels.
  destruct (seed_loop_fail k (label_groups (paired_labels features labels)) [] st)
    as (w & Hrun); [|exists w; unfold bind; by rewrite Hrun].
  apply Exists_exists.
  exists (l, replicate (count l (paired_labels features labels)) ()). split.
  - unfold label_groups. apply list_elem_of_fmap. exists l.
    split; [done|]. by apply elem_of_first_occurrences.
  - simpl. by rewrite length_replicate.
Qed.

(** The only exception the sampler can raise is that of [random.sample]. *)
Lemma sample_cluster_seeds_exn features labels k (aggregate : string) st e st' :
  sample_cluster_seeds features labels k aggregate st = (inl e, st') → e = SAMPLE_ERROR.
Proof.
  intros Hrun. rewrite sample_cluster_seeds_labels in Hrun. unfold bind in Hrun.
  set (groups := label_groups (paired_labels features labels)) in Hrun.
  destruct (decide (Forall (λ g, 0 ≤ k ≤ Z.of_nat (length g.2)) groups)) as [Hall|Hnot].
  - destruct (seed_loop_ok k groups [] st Hall) as (marks & w & Hok & _).
    by rewrite Hok in Hrun.
  - apply not_Forall_Exists in Hnot; [|apply _].
    destruct (seed_loop_fail k groups [] st Hnot) as (w & Hfail).
    rewrite Hfail in Hrun. congruence.
Qed.

(** When it returns, the vector is as long as the paired input. *)
Lemma sample_cluster_seeds_returns features labels k (aggregate : string) st :
  0 ≤ k →
  (∀ l, l ∈ paired_labels features labels →
        k ≤ Z.of_nat (count l (paired_labels features labels))) →
  ∃ out w,
    sample_cluster_seeds features labels k aggregate st =
      (inr out, mkState w (stdout st) (fits st)) ∧
    length out = (length features `min` length labels)%nat.
Proof.
  intros Hk Hsize.
  destruct (sample_cluster_seeds_ok features labels k aggregate st Hk Hsize)
    as (marks & w & Hrun & Hmarks).
  exists (np.array (concat marks)), w. split; [done|].
  assert (Forall2 (λ y i, paired_labels features labels !! i = Some y ∨ y = UNKNOWN)
            (concat marks) (regrouped_order (paired_labels features labels))) as Hal.
  { apply (markings_aligned (Z.to_nat k) (λ l, count l (paired_labels features labels))
             (paired_labels features labels) _ marks
             (λ l, positions_of l (paired_labels features labels)) Hmarks).
    - intros l _. apply length_positions_of.
    - intros l i. apply positions_of_label. }
  by rewrite length_np_array, (Forall2_length _ _ _ Hal), length_regrouped_order,
    length_paired_labels.
Qed.

(** On labels that fit int64 the array holds the markings as they are. *)
Lemma sample_cluster_seeds_exact features labels k (aggregate : string) st :
  0 ≤ k →
  (∀ l, l ∈ paired_labels features labels →
        np.is_int64 l ∧ k ≤ Z.of_nat (count l (paired_labels features labels))) →
  ∃ marks w,
    sample_cluster_seeds features labels k aggregate st =
      (inr (concat marks), mkState w (stdout st) (fits st)) ∧
    Forall2 (λ l m, seeded (Z.to_nat k) l (count l (paired_labels features labels)) m)
      (first_occurrences (paired_labels features labels)) marks.
Proof.
  intros Hk Hsize.
  destruct (sample_cluster_seeds_ok features labels k aggregate st Hk)
    as (marks & w & Hrun & Hmarks); [intros l Hl; by apply Hsize|].
  exists marks, w. split; [|done]. rewrite Hrun, np_array_exact; [done|].
  apply Forall_forall. intros y Hy.
  destruct (markings_elem _ _ _ _ _ Hmarks Hy) as [Hin| ->];
    [|unfold np.is_int64, UNKNOWN; lia].
  rewrite elem_of_first_occurrences in Hin. by apply Hsize.
Qed.

(** With one seed per label, as [cluster] asks for, the sampler returns. *)
Lemma sample_cluster_seeds_one features labels (aggregate : string) st :
  ∃ out w,
    sample_cluster_seeds features labels 1 aggregate st =
      (inr out, mkState w (stdout st) (fits st)) ∧
    length out = (length features `min` length labels)%nat.
Proof.
  apply sample_cluster_seeds_returns; [lia|].
  intros l Hl. unfold count.
  assert (l ∈ filter (λ x, x = l) (paired_labels features labels)) as Hin
    by (by apply list_elem_of_filter).
  destruct (filter _ _); [by apply elem_of_nil in Hin|simpl; lia].
Qed.

End SeedSampler.

Section SeedSamplerClaims.
Context `{Env : Environment} {F : Type}.
Implicit Types (features : list F) (labels : list Z) (k : Z) (st : state).

(** C1 (as amended).  When the labels fit int64 and every label of the
    input has at least [k] paired points, [sample_cluster_seeds] returns a
    vector with exactly [k] entries equal to [l] for each distinct input
    label [l] other than the sentinel -1, and every other entry is the
    sentinel: an entry is an input label or -1, and the entries split into
    [k] per label other than -1 plus the entries equal to -1.  Position by
    position, the vector is made of one marking per paired label, each
    revealing [k] points of its group. *)
Theorem sample_cluster_seeds_reveals features labels k (aggregate : string) st :
  0 ≤ k →
  (∀ l, l ∈ labels → np.is_int64 l) →
  (∀ l, l ∈ labels → k ≤ Z.of_nat (count l (paired_labels features labels))) →
  ∃ out st',
    sample_cluster_seeds features labels k aggregate st = (inr out, st') ∧
    (∀ l, l ∈ labels → l ≠ UNKNOWN → Z.of_nat (count l out) = k) ∧
    (∀ y, y ∈ out → y ∈ labels ∨ y = UNKNOWN) ∧
    length out =
      (Z.to_nat k *
         length (filter (λ l, l ≠ UNKNOWN)
                   (first_occurrences (paired_labels features labels))) +
       count UNKNOWN out)%nat ∧
    ∃ marks,
      out = concat marks ∧
      markings (Z.to_nat k) (λ l, count l (paired_labels features labels))
        (first_occurrences (paired_labels features labels)) marks.
Proof.
  intros Hk Hint Hsize.
  destruct (sample_cluster_seeds_exact features labels k aggregate st)
    as (marks & w & Hrun & Hmarks); [done| |].
  { intros l Hl%(elem_of_paired_labels features). split; [by apply Hint|by apply Hsize]. }
  eexists _, _. split; [done|]. split_and!; [| | |by exists marks].
  - intros l Hl Hu.
    destruct (decide (l ∈ paired_labels features labels)) as [Hin|Hout].
    + rewrite (markings_count _ _ _ _ l Hmarks); [lia| |by apply elem_of_first_occurrences|done].
      apply NoDup_first_occurrences.
    + specialize (Hsize l Hl). rewrite (count_absent l (paired_labels _ _)) in Hsize by done.
      rewrite (markings_count_absent _ _ _ _ l Hmarks); [lia| |done].
      by rewrite elem_of_first_occurrences.
  - intros y Hy. destruct (markings_elem _ _ _ _ _ Hmarks Hy) as [Hin|]; [|by right].
    left. rewrite elem_of_first_occurrences in Hin.
    exact (elem_of_paired_labels features labels y Hin).
  - exact (markings_split _ _ _ _ Hmarks).
Qed.

(** C3.  On sequences of equal length with every label group at least [k]
    large, [sample_cluster_seeds] returns a vector as long as the input that
    runs over the points in the reconstructed order: points grouped by
    label, groups in order of first occurrence, input order within a group.
    There is a set of sampled points, [k] of every label, and the vector is
    the array of what each point of the reconstructed order shows in turn,
    its own label if it was sampled and -1 if not (the list itself when the
    labels fit int64).  That order is the one the code records in
    [original_index_by_cluster]; it visits every input position once, and
    it is not the input order in general. *)
Theorem sample_cluster_seeds_regrouped features labels k (aggregate : string) st :
  length features = length labels →
  0 ≤ k →
  (∀ l, l ∈ labels → k ≤ Z.of_nat (count l labels)) →
  (∃ (sampled : gset nat) out st',
    sample_cluster_seeds features labels k aggregate st = (inr out, st') ∧
    length out = length labels ∧
    out = np.array (revealed labels sampled <$> regrouped_order labels) ∧
    (Forall np.is_int64 labels →
     out = revealed labels sampled <$> regrouped_order labels) ∧
    (∀ i, i ∈ sampled → (i < length labels)%nat) ∧
    (∀ l, l ∈ labels →
       length (filter (λ i, i ∈ sampled) (positions_of l labels)) = Z.to_nat k)) ∧
  concat (original_index_by_cluster features labels).*2 = regrouped_order labels ∧
  regrouped_order labels ≡ₚ seq 0 (length labels) ∧
  ∃ labels', regrouped_order labels' ≠ seq 0 (length labels').
Proof.
  intros Hlen Hk Hsize.
  pose proof (paired_labels_same_length features labels Hlen) as Hps.
  split_and!.
  - destruct (sample_cluster_seeds_ok features labels k aggregate st)
      as (marks & w & Hrun & Hmarks); [done|by rewrite Hps|].
    rewrite Hps in Hmarks.
    destruct (markings_revealed (Z.to_nat k) labels _ marks
                (NoDup_first_occurrences labels) Hmarks)
      as (sampled & Hsub & Hout & Hcount).
    fold (regrouped_order labels) in Hout. rewrite Hout in Hrun.
    exists sampled. eexists _, _. split_and!; [done| |done| | |].
    + by rewrite length_np_array, length_fmap, length_regrouped_order.
    + intros Hint. by apply np_array_exact, revealed_int64.
    + intros i (l & _ & Hi%positions_of_label)%Hsub. by eapply lookup_lt_Some.
    + intros l Hl. by apply Hcount, elem_of_first_occurrences.
  - by rewrite original_index_by_cluster_order, Hps.
  - apply regrouped_order_permutation.
  - by exists [0; 1; 0].
Qed.

(** C6.  When some label group has fewer points than
    [num_seed_points_per_label], [sample_cluster_seeds] raises the
    [ValueError] of [random.sample]; no vector is returned. *)
Theorem sample_cluster_seeds_insufficient features labels k (aggregate : string) st :
  (∃ l, l ∈ paired_labels features labels ∧
        Z.of_nat (count l (paired_labels features labels)) < k) →
  ∃ st', sample_cluster_seeds features labels k aggregate st = (inl SAMPLE_ERROR, st').
Proof.
  intros (l & Hl & Hlt).
  destruct (sample_cluster_seeds_fail features labels k aggregate st) as (w & Hrun);
    [|by eauto].
  exists l. split; [done|lia].
Qed.

(** C8.  Two feature matrices of the same length give the same result, and
    leave the random source in the same state, on the same label vector,
    [num_seed_points_per_label] and starting state: the rows are never
    looked at. *)
Theorem sample_cluster_seeds_ignores_features features1 features2 labels k
    (aggregate : string) st :
  length features1 = length features2 →
  sample_cluster_seeds features1 labels k aggregate st =
  sample_cluster_seeds features2 labels k aggregate st.
Proof.
  intros Hlen. rewrite !sample_cluster_seeds_labels.
  unfold paired_labels. by rewrite Hlen.
Qed.

(** C10.  On sequences of unequal length [sample_cluster_seeds] behaves as
    on both cut to the shorter length; the only exception it can raise is
    that of [random.sample]; and when every paired label group is at least
    [k] large it returns a vector whose length is the smaller of the two
    input lengths. *)
Theorem sample_cluster_seeds_unequal_lengths features labels k (aggregate : string) st :
  length features ≠ length labels →
  let n := (length features `min` length labels)%nat in
  sample_cluster_seeds features labels k aggregate st =
    sample_cluster_seeds (take n features) (take n labels) k aggregate st ∧
  (∀ e st', sample_cluster_seeds features labels k aggregate st = (inl e, st') →
            e = SAMPLE_ERROR) ∧
  (0 ≤ k →
   (∀ l, l ∈ paired_labels features labels →
         k ≤ Z.of_nat (count l (paired_labels features labels))) →
   ∃ out st',
     sample_cluster_seeds features labels k aggregate st = (inr out, st') ∧
     length out = n).
Proof.
  intros _ n. subst n. split_and!.
  - rewrite !sample_cluster_seeds_labels.
    by rewrite (paired_labels_take features labels).
  - intros e st'. apply sample_cluster_seeds_exn.
  - intros Hk Hsize.
    destruct (sample_cluster_seeds_returns features labels k aggregate st Hk Hsize)
      as (out & w & Hrun & Hlen).
    by eexists _, _.
Qed.

End SeedSamplerClaims.

(** ** Dispatch: [cluster] and [extract_features] *)

Section Dispatch.
Context `{Env : Environment}.
Implicit Types (features : list feature) (labels : list Z) (st : state).

Lemma py_assert_true st : py_assert true st = (inr (), st).
Proof. unfold py_assert. by rewrite andb_false_r. Qed.

Lemma prefix_append (s t : string) : String.prefix s (s +:+ t) = true.
Proof.
  induction s as [|c s IH]; simpl; [by destruct t|].
  destruct (Ascii.ascii_dec c c); [done|congruence].
Qed.

Lemma contains_prefix (s hay : string) : String.prefix s hay = true → contains s hay = true.
Proof. intros Hp. destruct hay; cbn [contains]; by rewrite Hp. Qed.

Lemma contains_append (p s t : string) : contains s (p +:+ s +:+ t) = true.
Proof.
  induction p as [|c p IH].
  - change (contains s (s +:+ t) = true). apply contains_prefix, prefix_append.
  - change (contains s (String c (p +:+ s +:+ t)) = true).
    cbn [contains]. rewrite IH. apply orb_true_r.
Qed.

(** An identifier outside the closed set: nothing has run when [cluster]
    raises. *)
Lemma cluster_unsupported (semisupervised_algo : string) features labels
    (num_clusters : Z) (max_feedback_given : option Z) st :
  semisupervised_algo ∉ ALGORITHMS →
  cluster semisupervised_algo features labels num_clusters max_feedback_given st =
  (inl (unsupported semisupervised_algo), st).
Proof.
  intros Hnot. unfold cluster, bind, py_assert, unsupported.
  rewrite bool_decide_eq_false_2 by done.
  destruct py_debug; simpl; [done|].
  unfold ALGORITHMS in Hnot. rewrite !not_elem_of_cons in Hnot.
  destruct Hnot as (? & ? & ? & ? & _).
  by rewrite !decide_False by done.
Qed.

(** An identifier of the closed set, with collaborators that return: the
    clusterer carries one cluster per point, and standard output is left
    alone. *)
Lemma cluster_returns (semisupervised_algo : string) features labels
    (num_clusters : Z) (max_feedback_given : option Z) st :
  collaborators_return features labels num_clusters max_feedback_given →
  length features = length labels →
  semisupervised_algo ∈ ALGORITHMS →
  ∃ assignment st',
    cluster semisupervised_algo features labels num_clusters max_feedback_given st =
      (inr (Clusterer assignment), st') ∧
    length assignment = length features ∧ stdout st' = stdout st.
Proof.
  intros (HK & HM & HP & HC & HS & _) Hlen Hin.
  unfold cluster, bind. rewrite bool_decide_eq_true_2, py_assert_true by done.
  unfold ALGORITHMS in Hin. rewrite !elem_of_cons in Hin.
  destruct Hin as [->|[->|[->|[->|Hin]]]]; [| | | |by apply elem_of_nil in Hin].
  - rewrite decide_True by done. simpl. unfold call. simpl.
    destruct (HK (ext st)) as (a & w & -> & Ha). by eexists _, _.
  - rewrite decide_False, decide_True by done. simpl. unfold call. simpl.
    destruct (HM (ext st)) as ([ml cl] & w & ->). simpl.
    destruct (HP ml cl w) as (a & w' & -> & Ha). by eexists _, _.
  - rewrite !decide_False, decide_True by done.
    destruct (sample_cluster_seeds_one features labels "mean" st)
      as (seeds & w & -> & Hseeds).
    simpl. unfold call. simpl.
    destruct (HC seeds w) as (a & w' & -> & Ha); [lia|]. by eexists _, _.
  - rewrite !decide_False, decide_True by done.
    destruct (sample_cluster_seeds_one features labels "mean" st)
      as (seeds & w & -> & Hseeds).
    simpl. unfold call. simpl.
    destruct (HS seeds w) as (a & w' & -> & Ha); [lia|]. by eexists _, _.
Qed.

(** C7.  With ["KMeans"] the result of [cluster], and the state it leaves,
    are the same whatever the label vector: it is what [KMeans.fit] returns
    on the features alone. *)
Theorem cluster_KMeans_ignores_labels features labels1 labels2
    (num_clusters : Z) (max_feedback_given : option Z) st :
  cluster "KMeans" features labels1 num_clusters max_feedback_given st =
  cluster "KMeans" features labels2 num_clusters max_feedback_given st ∧
  cluster "KMeans" features labels1 num_clusters max_feedback_given st =
  (let '(r, w) := KMeans_fit num_clusters features (ext st) in
   (match r with inl e => inl e | inr assignment => inr (Clusterer assignment) end,
    mkState w (stdout st) (fits st ++ ["KMeans.fit"]))).
Proof.
  split; [done|].
  unfold cluster, bind.
  rewrite bool_decide_eq_true_2, py_assert_true, decide_True by (done || by left).
  simpl. unfold call. simpl. by destruct (KMeans_fit _ _ _) as [[e|a] w].
Qed.

(** C5 (as amended).  With assertions enabled an extractor name outside
    the accepted three makes [extract_features] raise at once an
    [AssertionError], whose message is empty and so names nothing; with
    assertions stripped it raises nothing and returns [None].  An algorithm
    identifier outside the closed set makes [cluster] raise at once, before
    anything else has run; with assertions stripped what it raises is the
    [ValueError] whose message names the identifier. *)
Theorem unsupported_value_raises (feature_extractor semisupervised_algo : string)
    (data : dataset) (verbose : bool) features labels
    (num_clusters : Z) (max_feedback_given : option Z) st :
  feature_extractor ∉ FEATURE_EXTRACTORS →
  semisupervised_algo ∉ ALGORITHMS →
  extract_features data feature_extractor verbose st =
    (if py_debug then inl AssertionError else inr PyNone, st) ∧
  exn_message AssertionError = "" ∧
  ∃ e,
    cluster semisupervised_algo features labels num_clusters max_feedback_given st =
      (inl e, st) ∧
    (py_debug = false →
     e = ValueError ("Algorithm " +:+ semisupervised_algo +:+ " not supported.") ∧
     contains semisupervised_algo (exn_message e) = true).
Proof.
  intros Hfe Halgo. split_and!.
  - unfold extract_features, bind, py_assert.
    rewrite bool_decide_eq_false_2 by done.
    destruct py_debug; simpl; [done|].
    unfold FEATURE_EXTRACTORS in Hfe. rewrite !not_elem_of_cons in Hfe.
    destruct Hfe as (? & ? & ? & _). by rewrite !decide_False by done.
  - done.
  - exists (unsupported semisupervised_algo). split; [by apply cluster_unsupported|].
    unfold unsupported. intros ->. split; [done|]. apply contains_append.
Qed.

(** C9.  ["BERT"] is a choice of the command-line flag and passes the
    check at the head of [extract_features], yet [extract_features] raises
    [NotImplementedError] on it, for every dataset. *)
Theorem extract_features_BERT (data : dataset) (verbose : bool) st :
  "BERT" ∈ feature_extractor_choices ∧
  py_assert (bool_decide ("BERT" ∈ FEATURE_EXTRACTORS)) st = (inr (), st) ∧
  extract_features data "BERT" verbose st = (inl NotImplementedError, st).
Proof.
  assert ("BERT" ∈ FEATURE_EXTRACTORS) as Hin by (by right; left).
  split_and!; [done| |].
  - rewrite bool_decide_eq_true_2 by done. apply py_assert_true.
  - unfold extract_features, bind.
    rewrite bool_decide_eq_true_2 by done. rewrite py_assert_true.
    by rewrite !decide_False, decide_True by done.
Qed.

End Dispatch.

(** ** The comparison harness *)

Section Comparison.
Context `{Env : Environment}.
Context (features : list feature) (labels : list Z) (num_clusters : Z)
        (max_feedback_given : option Z) (algorithms : list string) (verbose : bool).
Implicit Types (st : state) (tbl : gmap string (list metric_record)).

Local Abbreviation run_algorithm' :=
  (run_algorithm features labels num_clusters max_feedback_given verbose).
Local Abbreviation run_seed' :=
  (run_seed features labels num_clusters max_feedback_given algorithms verbose).
Local Abbreviation compare_algorithms' n :=
  (compare_algorithms features labels num_clusters max_feedback_given algorithms n verbose).

Lemma for_each_app {A S} (xs ys : list A) (body : A → S → M S) (s : S) st :
  for_each (xs ++ ys) body s st =
  match for_each xs body s st with
  | (inl e, st') => (inl e, st')
  | (inr s', st') => for_each ys body s' st'
  end.
Proof.
  revert s st. induction xs as [|x xs IH]; intros s st; [done|].
  simpl. unfold bind. destruct (body x s st) as [[e|s'] st']; [done|]. apply IH.
Qed.

Lemma enumerate_range_succ (n : nat) :
  enumerate (range (Z.of_nat (S n))) = enumerate (range (Z.of_nat n)) ++ [(n, Z.of_nat n)].
Proof. by rewrite range_succ, enumerate_snoc, length_range, Nat2Z.id. Qed.

(** One more seed is one more pass of the outer loop body. *)
Lemma compare_algorithms_succ (n : nat) st :
  compare_algorithms' (Z.of_nat (S n)) st =
  match compare_algorithms' (Z.of_nat n) st with
  | (inl e, st') => (inl e, st')
  | (inr tbl, st') => run_seed' (n, Z.of_nat n) tbl st'
  end.
Proof.
  unfold compare_algorithms. rewrite enumerate_range_succ, for_each_app.
  destruct (for_each _ _ _ _) as [[e|tbl] st']; [done|].
  cbn [for_each]. unfold bind. by destruct (run_seed' _ _ _) as [[e|tbl'] st''].
Qed.

Lemma records_of_insert tbl (a b : string) (recs : list metric_record) :
  records_of (<[a := recs]> tbl) b = if decide (a = b) then recs else records_of tbl b.
Proof.
  unfold records_of. rewrite lookup_insert. by case_decide.
Qed.

Lemma occurrences_cons (a b : string) (l : list string) :
  occurrences a (b :: l) = ((if decide (b = a) then 1 else 0) + occurrences a l)%nat.
Proof. unfold occurrences. rewrite filter_cons. by case_decide. Qed.

Lemma occurrences_once (a : string) (l : list string) :
  NoDup l → a ∈ l → occurrences a l = 1%nat.
Proof.
  induction 1 as [|b l Hb Hnd IH]; [by intros ?%elem_of_nil|].
  rewrite occurrences_cons. intros [->|Hin]%elem_of_cons.
  - rewrite decide_True by done. unfold occurrences.
    assert (filter (λ x, x = b) l = []) as ->; [|done].
    destruct (filter _ l) as [|c ?] eqn:E; [done|].
    assert (c ∈ filter (λ x, x = b) l) as [-> ?]%list_elem_of_filter by (rewrite E; by left).
    done.
  - rewrite decide_False by (by intros ->). by rewrite IH.
Qed.

Section Returning.
Hypothesis Hcollab : collaborators_return features labels num_clusters max_feedback_given.
Hypothesis Hlen : length features = length labels.

Lemma run_algorithm_returns (seed : Z) (a : string) tbl st :
  a ∈ ALGORITHMS →
  ∃ record st',
    run_algorithm' seed a tbl st = (inr (<[a := records_of tbl a ++ [record]]> tbl), st').
Proof.
  intros Hin. unfold run_algorithm, bind.
  destruct (when verbose _ st) as [[e|[]] st0] eqn:Hwhen.
  { destruct verbose; simpl in Hwhen; by inversion Hwhen. }
  destruct (cluster_returns a features labels num_clusters max_feedback_given st0
              Hcollab Hlen Hin) as (assignment & st' & -> & Ha & _).
  destruct Hcollab as (_ & _ & _ & _ & _ & Hmetrics).
  destruct (Hmetrics labels assignment) as [[r Hr] [m Hm]]; [lia|].
  unfold pure_call. simpl. rewrite Hr, Hm. by eexists _, _.
Qed.

(** The inner loop appends one record per listed identifier. *)
Lemma algorithms_loop_returns (seed : Z) (algos : list string) tbl st :
  Forall (λ a, a ∈ ALGORITHMS) algos →
  ∃ tbl' st',
    for_each algos (run_algorithm' seed) tbl st = (inr tbl', st') ∧
    (∀ a, ∃ new, records_of tbl' a = records_of tbl a ++ new ∧
                 length new = occurrences a algos) ∧
    (∀ a, a ∈ algos ∨ is_Some (tbl !! a) → is_Some (tbl' !! a)).
Proof.
  intros Hall. revert tbl st. induction Hall as [|a0 algos Ha0 _ IH]; intros tbl st.
  - exists tbl, st. split_and!; [done| |].
    + intros a. exists []. by rewrite app_nil_r.
    + intros a [?%elem_of_nil|?]; done.
  - destruct (run_algorithm_returns seed a0 tbl st Ha0) as (record & st1 & Hrun).
    destruct (IH (<[a0 := records_of tbl a0 ++ [record]]> tbl) st1)
      as (tbl' & st' & Hrest & Hrecs & Hsome).
    exists tbl', st'. split_and!.
    + cbn [for_each]. unfold bind. by rewrite Hrun.
    + intros a. destruct (Hrecs a) as (new & Hnew & Hlength).
      rewrite records_of_insert in Hnew. rewrite occurrences_cons.
      destruct (decide (a0 = a)) as [->|Hne].
      * exists (record :: new). rewrite Hnew, <- app_assoc. simpl. by rewrite Hlength.
      * by exists new.
    + intros a Ha. apply Hsome. rewrite lookup_insert. case_decide; [by right; eexists|].
      destruct Ha as [[?|?]%elem_of_cons|?]; auto. congruence.
Qed.

Lemma run_seed_returns (i : nat) (seed : Z) tbl st :
  Forall (λ a, a ∈ ALGORITHMS) algorithms →
  ∃ tbl' st',
    run_seed' (i, seed) tbl st = (inr tbl', st') ∧
    (∀ a, ∃ new, records_of tbl' a = records_of tbl a ++ new ∧
                 length new = occurrences a algorithms) ∧
    (∀ a, a ∈ algorithms ∨ is_Some (tbl !! a) → is_Some (tbl' !! a)).
Proof.
  intros Hall. unfold run_seed, bind.
  destruct (when verbose _ st) as [[e|[]] st0] eqn:Hwhen.
  { destruct verbose; simpl in Hwhen; by inversion Hwhen. }
  unfold call at 1. simpl.
  destruct (algorithms_loop_returns seed algorithms tbl
              (mkState (set_seed seed (ext st0)) (stdout st0) (fits st0)) Hall)
    as (tbl' & st' & -> & Hrecs & Hsome).
  destruct (when verbose _ st') as [[e|[]] st''] eqn:Hwhen'.
  { destruct verbose; simpl in Hwhen'; by inversion Hwhen'. }
  by exists tbl', st''.
Qed.

(** After [n] seeds every list holds [n] rounds of records, and the lists
    after fewer seeds are prefixes of it: the rounds are in seed order. *)
Lemma compare_algorithms_rounds (n : nat) st :
  Forall (λ a, a ∈ ALGORITHMS) algorithms →
  ∃ tbl st',
    compare_algorithms' (Z.of_nat n) st = (inr tbl, st') ∧
    (∀ a, length (records_of tbl a) = (n * occurrences a algorithms)%nat) ∧
    (∀ a, a ∈ algorithms → (0 < n)%nat → is_Some (tbl !! a)) ∧
    (∀ j, (j ≤ n)%nat →
       ∃ tbl_j st_j,
         compare_algorithms' (Z.of_nat j) st = (inr tbl_j, st_j) ∧
         ∀ a, records_of tbl_j a = take (j * occurrences a algorithms) (records_of tbl a)).
Proof.
  intros Hall. induction n as [|n IH].
  - exists ∅, st. split_and!; [done|done|lia|].
    intros j Hj. replace j with 0%nat by lia. exists ∅, st. split; [done|].
    intros a. by rewrite take_0.
  - destruct IH as (tbl & st' & Hrun & Hlength & _ & Hprefix).
    destruct (run_seed_returns n (Z.of_nat n) tbl st' Hall)
      as (tbl' & st'' & Hseed & Hrecs & Hsome).
    assert (compare_algorithms' (Z.of_nat (S n)) st = (inr tbl', st'')) as Hrun'.
    { by rewrite compare_algorithms_succ, Hrun. }
    exists tbl', st''. split_and!; [done| | |].
    + intros a. destruct (Hrecs a) as (new & -> & Hnew).
      rewrite length_app, Hlength, Hnew. lia.
    + intros a Ha _. apply Hsome. by left.
    + intros j Hj. destruct (decide (j = S n)) as [->|Hne].
      * exists tbl', st''. split; [done|]. intros a.
        rewrite take_ge; [done|]. destruct (Hrecs a) as (new & -> & Hnew).
        rewrite length_app, Hlength, Hnew. lia.
      * destruct (Hprefix j) as (tbl_j & st_j & Hj' & Hpre); [lia|].
        exists tbl_j, st_j. split; [done|]. intros a.
        destruct (Hrecs a) as (new & -> & Hnew).
        rewrite take_app_le; [done|]. rewrite Hlength. nia.
Qed.

End Returning.

(** What [cluster] ends with on an identifier of the closed set is what
    the fits of that algorithm end with. *)
Lemma cluster_outcome (a : string) st :
  a ∈ ALGORITHMS →
  fit_outcome a features labels num_clusters max_feedback_given
    match (cluster a features labels num_clusters max_feedback_given st).1 with
    | inl e => inl e
    | inr clusterer => inr (labels_ clusterer)
    end.
Proof.
  intros Hin. unfold cluster, bind.
  rewrite bool_decide_eq_true_2, py_assert_true by done.
  unfold ALGORITHMS in Hin. rewrite !elem_of_cons in Hin.
  destruct Hin as [->|[->|[->|[->|Hin]]]]; [| | | |by apply elem_of_nil in Hin].
  - left. split; [done|]. exists (ext st).
    rewrite decide_True by done. simpl. unfold call. simpl.
    by destruct (KMeans_fit _ _ _) as [[e|assignment] w].
  - right; left. split; [done|]. exists (ext st).
    rewrite decide_False, decide_True by done. simpl. unfold call. simpl.
    destruct (MinMax_fit _ _ _ _ _) as [[e|[ml cl]] w]; [done|]. simpl.
    by destruct (PCKMeans_fit _ _ _ _ _) as [[e|assignment] w'].
  - do 2 right; left. split; [done|].
    rewrite !decide_False, decide_True by done.
    destruct (sample_cluster_seeds_one features labels "mean" st)
      as (seeds & w & -> & Hseeds).
    exists seeds, w. split; [done|]. simpl. unfold call. simpl.
    by destruct (ConstrainedKMeans_fit _ _ _ _) as [[e|assignment] w'].
  - do 3 right. split; [done|].
    rewrite !decide_False, decide_True by done.
    destruct (sample_cluster_seeds_one features labels "mean" st)
      as (seeds & w & -> & Hseeds).
    exists seeds, w. split; [done|]. simpl. unfold call. simpl.
    by destruct (SeededKMeans_fit _ _ _ _) as [[e|assignment] w'].
Qed.

(** One pass of the inner loop body on an identifier of the closed set
    appends one record, unless an external call raised. *)
Lemma run_algorithm_outcome (seed : Z) (a : string) tbl st :
  a ∈ ALGORITHMS →
  match (run_algorithm' seed a tbl st).1 with
  | inr tbl' => ∃ record, tbl' = <[a := records_of tbl a ++ [record]]> tbl
  | inl e => external_failure a features labels num_clusters max_feedback_given e
  end.
Proof.
  intros Hin. unfold run_algorithm, bind.
  destruct (when verbose _ st) as [[e|[]] st0] eqn:Hwhen.
  { destruct verbose; simpl in Hwhen; by inversion Hwhen. }
  pose proof (cluster_outcome a st0 Hin) as Hfit.
  destruct (cluster _ _ _ _ _ _) as [[e|clusterer] st1]; simpl in Hfit; [by left|].
  unfold pure_call.
  destruct (adjusted_rand_score _ _) as [e|r] eqn:Hrand; simpl.
  { right. exists (labels_ clusterer). split; [done|by left]. }
  destruct (normalized_mutual_info_score _ _) as [e|m] eqn:Hnmi; simpl.
  { right. exists (labels_ clusterer). split; [done|]. right. split; [by exists r|done]. }
  by eexists.
Qed.

(** The inner loop appends one record per listed identifier, unless an
    external call raised. *)
Lemma algorithms_loop_outcome (seed : Z) (algos : list string) tbl st :
  Forall (λ a, a ∈ ALGORITHMS) algos →
  match (for_each algos (run_algorithm' seed) tbl st).1 with
  | inr tbl' =>
      (∀ a, ∃ new, records_of tbl' a = records_of tbl a ++ new ∧
                   length new = occurrences a algos) ∧
      (∀ a, a ∈ algos ∨ is_Some (tbl !! a) → is_Some (tbl' !! a))
  | inl e =>
      ∃ a, a ∈ algos ∧
           external_failure a features labels num_clusters max_feedback_given e
  end.
Proof.
  intros Hall. revert tbl st. induction Hall as [|a0 algos Ha0 _ IH]; intros tbl st.
  - simpl. split.
    + intros a. exists []. by rewrite app_nil_r.
    + intros a [?%elem_of_nil|?]; done.
  - cbn [for_each]. unfold bind.
    pose proof (run_algorithm_outcome seed a0 tbl st Ha0) as Hone.
    destruct (run_algorithm' seed a0 tbl st) as [[e|tbl1] st1]; simpl in Hone.
    { simpl. exists a0. split; [by left|done]. }
    destruct Hone as (record & ->).
    specialize (IH (<[a0 := records_of tbl a0 ++ [record]]> tbl) st1).
    destruct (for_each algos _ _ st1) as [[e|tbl'] st']; simpl in *.
    { destruct IH as (a & Ha & He). exists a. split; [by right|done]. }
    destruct IH as [Hrecs Hsome]. split.
    + intros a. destruct (Hrecs a) as (new & Hnew & Hlength).
      rewrite records_of_insert in Hnew. rewrite occurrences_cons.
      destruct (decide (a0 = a)) as [->|Hne].
      * exists (record :: new). rewrite Hnew, <- app_assoc. simpl. by rewrite Hlength.
      * by exists new.
    + intros a Ha. apply Hsome. rewrite lookup_insert. case_decide; [by right; eexists|].
      destruct Ha as [[?|?]%elem_of_cons|?]; auto. congruence.
Qed.

Lemma run_seed_outcome (i : nat) (seed : Z) tbl st :
  Forall (λ a, a ∈ ALGORITHMS) algorithms →
  match (run_seed' (i, seed) tbl st).1 with
  | inr tbl' =>
      (∀ a, ∃ new, records_of tbl' a = records_of tbl a ++ new ∧
                   length new = occurrences a algorithms) ∧
      (∀ a, a ∈ algorithms ∨ is_Some (tbl !! a) → is_Some (tbl' !! a))
  | inl e =>
      ∃ a, a ∈ algorithms ∧
           external_failure a features labels num_clusters max_feedback_given e
  end.
Proof.
  intros Hall. unfold run_seed, bind.
  destruct (when verbose _ st) as [[e|[]] st0] eqn:Hwhen.
  { destruct verbose; simpl in Hwhen; by inversion Hwhen. }
  unfold call at 1. simpl.
  pose proof (algorithms_loop_outcome seed algorithms tbl
                (mkState (set_seed seed (ext st0)) (stdout st0) (fits st0)) Hall) as Hloop.
  destruct (for_each algorithms _ _ _) as [[e|tbl'] st']; simpl in Hloop; [done|].
  destruct (when verbose _ st') as [[e|[]] st''] eqn:Hwhen'.
  { destruct verbose; simpl in Hwhen'; by inversion Hwhen'. }
  done.
Qed.

(** After [n] seeds every list holds [n] rounds of records, and the lists
    after fewer seeds are prefixes of it, unless an external call raised. *)
Lemma compare_algorithms_outcome (n : nat) st :
  Forall (λ a, a ∈ ALGORITHMS) algorithms →
  match (compare_algorithms' (Z.of_nat n) st).1 with
  | inr tbl =>
      (∀ a, length (records_of tbl a) = (n * occurrences a algorithms)%nat) ∧
      (∀ a, a ∈ algorithms → (0 < n)%nat → is_Some (tbl !! a)) ∧
      (∀ j, (j ≤ n)%nat →
         ∃ tbl_j st_j,
           compare_algorithms' (Z.of_nat j) st = (inr tbl_j, st_j) ∧
           ∀ a, records_of tbl_j a = take (j * occurrences a algorithms) (records_of tbl a))
  | inl e =>
      ∃ a, a ∈ algorithms ∧
           external_failure a features labels num_clusters max_feedback_given e
  end.
Proof.
  intros Hall. induction n as [|n IH].
  - simpl. split_and!; [done|lia|].
    intros j Hj. replace j with 0%nat by lia. exists ∅, st. split; [done|].
    intros a. by rewrite take_0.
  - rewrite compare_algorithms_succ.
    destruct (compare_algorithms' (Z.of_nat n) st) as [[e|tbl] st'] eqn:Hrun;
      simpl in IH; [done|].
    destruct IH as (Hlength & _ & Hprefix).
    pose proof (run_seed_outcome n (Z.of_nat n) tbl st' Hall) as Hseed.
    destruct (run_seed' (n, Z.of_nat n) tbl st') as [[e|tbl'] st''] eqn:Hstep;
      simpl in Hseed |- *; [done|].
    destruct Hseed as [Hrecs Hsome].
    assert (compare_algorithms' (Z.of_nat (S n)) st = (inr tbl', st'')) as Hrun'.
    { by rewrite compare_algorithms_succ, Hrun. }
    split_and!.
    + intros a. destruct (Hrecs a) as (new & -> & Hnew).
      rewrite length_app, Hlength, Hnew. lia.
    + intros a Ha _. apply Hsome. by left.
    + intros j Hj. destruct (decide (j = S n)) as [->|Hne].
      * exists tbl', st''. split; [done|]. intros a.
        rewrite take_ge; [done|]. destruct (Hrecs a) as (new & -> & Hnew).
        rewrite length_app, Hlength, Hnew. lia.
      * destruct (Hprefix j) as (tbl_j & st_j & Hj' & Hpre); [lia|].
        exists tbl_j, st_j. split; [done|]. intros a.
        destruct (Hrecs a) as (new & -> & Hnew).
        rewrite take_app_le; [done|]. rewrite Hlength. nia.
Qed.

Lemma run_algorithm_unsupported (seed : Z) (a : string) tbl st :
  a ∉ ALGORITHMS →
  ∃ st', run_algorithm' seed a tbl st = (inl (unsupported a), st') ∧ fits st' = fits st.
Proof.
  intros Hnot. unfold run_algorithm, bind.
  destruct (when verbose _ st) as [[e|[]] st0] eqn:Hwhen;
    [destruct verbose; simpl in Hwhen; by inversion Hwhen|].
  rewrite cluster_unsupported by done. exists st0. split; [done|].
  destruct verbose; simpl in Hwhen; by inversion Hwhen.
Qed.

(** A list with an unknown identifier never gets through the inner loop. *)
Lemma algorithms_loop_raises (seed : Z) (algos : list string) tbl st :
  (∃ a, a ∈ algos ∧ a ∉ ALGORITHMS) →
  ∃ e st', for_each algos (run_algorithm' seed) tbl st = (inl e, st').
Proof.
  intros (a & Hin & Hnot). revert tbl st.
  induction algos as [|a0 algos IH]; intros tbl st; [by apply elem_of_nil in Hin|].
  cbn [for_each]. unfold bind.
  destruct (run_algorithm' seed a0 tbl st) as [[e|tbl1] st1] eqn:Hrun; [by eauto|].
  apply elem_of_cons in Hin as [->|Hin]; [|by apply IH].
  destruct (run_algorithm_unsupported seed a0 tbl st Hnot) as (st' & Hbad & _).
  congruence.
Qed.

End Comparison.

Section ComparisonClaims.
Context `{Env : Environment}.
Implicit Types (features : list feature) (labels : list Z) (st : state).

Lemma enumerate_range_pos (n : Z) :
  0 < n → ∃ rest, enumerate (range n) = (0%nat, 0) :: rest.
Proof.
  intros Hn. unfold range. destruct (Z.to_nat n) as [|m] eqn:Hm; [lia|].
  simpl. unfold enumerate. simpl. by eexists.
Qed.

Lemma when_print_fits (verbose : bool) (line : string) st :
  ∃ st0, when verbose (print line) st = (inr (), st0) ∧
         fits st0 = fits st ∧ ext st0 = ext st.
Proof. destruct verbose; simpl; by eexists. Qed.

(** An exception in the inner loop of the first seed is the outcome of the
    whole run. *)
Lemma compare_algorithms_first_seed features labels (num_clusters : Z)
    (max_feedback_given : option Z) (algorithms : list string) (num_seeds : Z)
    (verbose : bool) st :
  0 < num_seeds →
  ∃ st0,
    fits st0 = fits st ∧
    ∀ e st',
      for_each algorithms
        (run_algorithm features labels num_clusters max_feedback_given verbose 0)
        ∅ st0 = (inl e, st') →
      compare_algorithms features labels num_clusters max_feedback_given algorithms
        num_seeds verbose st = (inl e, st').
Proof.
  intros Hpos. destruct (enumerate_range_pos num_seeds Hpos) as (items & Hitems).
  destruct (when_print_fits verbose
              ("Starting experiments for " +:+ pretty 0%nat +:+ "th seed") st)
    as (st_p & Hprint & Hfits & _).
  exists (mkState (set_seed 0 (ext st_p)) (stdout st_p) (fits st_p)). split; [done|].
  intros e st' Hloop.
  unfold compare_algorithms. rewrite Hitems. cbn [for_each]. unfold bind at 1.
  unfold run_seed. unfold bind at 1. rewrite Hprint.
  unfold bind at 1. unfold call at 1. cbn [ext stdout fits].
  unfold bind at 1. by rewrite Hloop.
Qed.

(** C2 (as amended).  When every listed identifier is in the closed set and
    [num_seeds] is positive, [compare_algorithms] ends in one of two ways.
    Either an external call raised, a fit of a listed algorithm or a metric
    on the assignment it returned, and that exception is the outcome.  Or
    it returns a table in which each listed identifier maps to a list of
    [rand]/[nmi] records with [num_seeds] records per occurrence of the
    identifier in the list, so exactly [num_seeds] when no identifier is
    listed twice; the records are in seed order: the run over the first [j]
    seeds returns too, and its table holds, for each identifier, the leading
    records of the final list. *)
Theorem compare_algorithms_table features labels (num_clusters : Z)
    (max_feedback_given : option Z) (algorithms : list string) (num_seeds : Z)
    (verbose : bool) st :
  Forall (λ a, a ∈ ALGORITHMS) algorithms →
  0 < num_seeds →
  match (compare_algorithms features labels num_clusters max_feedback_given algorithms
           num_seeds verbose st).1 with
  | inr tbl =>
      (∀ a, a ∈ algorithms →
         ∃ records : list metric_record,
           tbl !! a = Some records ∧
           length records = (Z.to_nat num_seeds * occurrences a algorithms)%nat ∧
           (NoDup algorithms → Z.of_nat (length records) = num_seeds)) ∧
      (∀ j, 0 ≤ j ≤ num_seeds →
         ∃ tbl_j st_j,
           compare_algorithms features labels num_clusters max_feedback_given algorithms
             j verbose st = (inr tbl_j, st_j) ∧
           ∀ a, records_of tbl_j a =
                take (Z.to_nat j * occurrences a algorithms) (records_of tbl a))
  | inl e =>
      ∃ a, a ∈ algorithms ∧
           external_failure a features labels num_clusters max_feedback_given e
  end.
Proof.
  intros Hall Hpos.
  pose proof (compare_algorithms_outcome features labels num_clusters max_feedback_given
                algorithms verbose (Z.to_nat num_seeds) st Hall) as Hout.
  rewrite Z2Nat.id in Hout by lia.
  destruct (compare_algorithms _ _ _ _ _ _ _ _) as [[e|tbl] st']; simpl in *; [done|].
  destruct Hout as (Hlength & Hsome & Hprefix). split.
  - intros a Ha. destruct (Hsome a Ha) as [records Hrecs]; [lia|].
    exists records. specialize (Hlength a). unfold records_of in Hlength.
    rewrite Hrecs in Hlength. simpl in Hlength. split_and!; [done|done|].
    intros Hnd. rewrite Hlength, occurrences_once by done. lia.
  - intros j Hj. destruct (Hprefix (Z.to_nat j)) as (tbl_j & st_j & Hrun_j & Hpre); [lia|].
    rewrite Z2Nat.id in Hrun_j by lia. by exists tbl_j, st_j.
Qed.

(** C4 (as amended).  When the list holds an identifier outside the closed
    set and [num_seeds] is positive, [compare_algorithms] raises and returns
    no table.  When the list begins with such an identifier the exception is
    that of [cluster] on it and no library fit has been entered before. *)
Theorem compare_algorithms_unknown features labels (num_clusters : Z)
    (max_feedback_given : option Z) (algorithms : list string) (num_seeds : Z)
    (verbose : bool) st :
  (∃ a, a ∈ algorithms ∧ a ∉ ALGORITHMS) →
  0 < num_seeds →
  (∃ e st',
     compare_algorithms features labels num_clusters max_feedback_given algorithms
       num_seeds verbose st = (inl e, st')) ∧
  (∀ a rest, algorithms = a :: rest → a ∉ ALGORITHMS →
     ∃ st',
       compare_algorithms features labels num_clusters max_feedback_given algorithms
         num_seeds verbose st = (inl (unsupported a), st') ∧
       fits st' = fits st).
Proof.
  intros Hbad Hpos.
  destruct (compare_algorithms_first_seed features labels num_clusters max_feedback_given
              algorithms num_seeds verbose st Hpos) as (st0 & Hfits & Hfirst).
  split.
  - destruct (algorithms_loop_raises features labels num_clusters max_feedback_given
                verbose 0 algorithms ∅ st0 Hbad) as (e & st' & Hloop).
    exists e, st'. by apply Hfirst.
  - intros a rest -> Hnot.
    destruct (run_algorithm_unsupported features labels num_clusters max_feedback_given
                verbose 0 a ∅ st0 Hnot) as (st' & Hrun & Hfits').
    exists st'. split; [|by rewrite Hfits'].
    apply Hfirst. cbn [for_each]. unfold bind. by rewrite Hrun.
Qed.

End ComparisonClaims.

(** ** The claims on concrete runs *)

Section ConcreteRuns.

Lemma demo_collaborators_return (debug : bool) (features : list Z) (labels : list Z)
    (num_clusters : Z) (max_feedback_given : option Z) :
  0 < num_clusters →
  collaborators_return (Env := Demo.env debug) features labels num_clusters
    max_feedback_given.
Proof.
  intros Hpos. unfold collaborators_return, returns_assignment. simpl.
  unfold Demo.fit, Demo.seeded_fit, Demo.agreement, Demo.round_robin.
  split_and!.
  - intros w. rewrite decide_True by done. eexists _, _. split; [done|].
    by rewrite length_fmap, length_seq.
  - intros w. by eexists _, _.
  - intros _ _ w. rewrite decide_True by done. eexists _, _. split; [done|].
    by rewrite length_fmap, length_seq.
  - intros y w Hy. rewrite decide_True by done. eexists _, _. split; [done|].
    rewrite length_zip_with, length_fmap, length_seq. lia.
  - intros y w Hy. rewrite decide_True by done. eexists _, _. split; [done|].
    rewrite length_zip_with, length_fmap, length_seq. lia.
  - intros truth predicted Hlen. rewrite decide_True by done. split; by eexists.
Qed.

(** Membership in a list that is written out. *)
Ltac listed H :=
  repeat (apply elem_of_cons in H as [->|H]); [..|by apply elem_of_nil in H].

(** C1 fails as stated when -1 is itself a label: on labels [-1; -1] with
    one seed per label both entries of the output equal -1, not one. *)
Lemma sample_cluster_seeds_sentinel_label :
  (∀ l, l ∈ [-1; -1] → 1 ≤ Z.of_nat (count l (paired_labels [10; 20] [-1; -1]))) ∧
  sample_cluster_seeds (Env := Demo.env true) [10; 20] [-1; -1] 1 "mean"
    (Demo.start true 0) = (inr [-1; -1], Demo.start true 1) ∧
  -1 ∈ [-1; -1] ∧ Z.of_nat (count (-1) [-1; -1]) ≠ 1.
Proof.
  split_and!.
  - intros l Hl. listed Hl; by vm_compute.
  - reflexivity.
  - by left.
  - by vm_compute.
Qed.

(** C1 fails as stated on a label outside int64 too: next to the sentinel
    the label 2^63 + 1 makes the array a float64 one, whose entry for the
    revealed point is the double 2^63; no entry equals the label. *)
Lemma sample_cluster_seeds_rounded_label :
  (∀ l, l ∈ [9223372036854775809; 0; 0] →
        1 ≤ Z.of_nat (count l (paired_labels [10; 20; 30] [9223372036854775809; 0; 0]))) ∧
  sample_cluster_seeds (Env := Demo.env true) [10; 20; 30] [9223372036854775809; 0; 0]
    1 "mean" (Demo.start true 0)
  = (inr [9223372036854775808; -1; 0], Demo.start true 2) ∧
  9223372036854775809 = 2 ^ 63 + 1 ∧
  Z.of_nat (count 9223372036854775809 [9223372036854775808; -1; 0]) ≠ 1.
Proof.
  split_and!.
  - intros l Hl. listed Hl; by vm_compute.
  - reflexivity.
  - reflexivity.
  - by vm_compute.
Qed.

(** C1 on six points with two labels of three points each and one seed per label. *)
Lemma sample_cluster_seeds_reveals_witness :
  0 ≤ 1 ∧
  (∀ l, l ∈ [0; 0; 0; 1; 1; 1] → np.is_int64 l) ∧
  (∀ l, l ∈ [0; 0; 0; 1; 1; 1] →
        1 ≤ Z.of_nat (count l (paired_labels [10; 20; 30; 40; 50; 60] [0; 0; 0; 1; 1; 1]))) ∧
  ∃ out st',
    sample_cluster_seeds (Env := Demo.env true) [10; 20; 30; 40; 50; 60]
      [0; 0; 0; 1; 1; 1] 1 "mean" (Demo.start true 4) = (inr out, st') ∧
    (∀ l, l ∈ [0; 0; 0; 1; 1; 1] → l ≠ UNKNOWN → Z.of_nat (count l out) = 1) ∧
    (∀ y, y ∈ out → y ∈ [0; 0; 0; 1; 1; 1] ∨ y = UNKNOWN) ∧
    length out =
      (Z.to_nat 1 *
         length (filter (λ l, l ≠ UNKNOWN)
                   (first_occurrences
                      (paired_labels [10; 20; 30; 40; 50; 60]%Z [0; 0; 0; 1; 1; 1]%Z))) +
       count UNKNOWN out)%nat ∧
    ∃ marks,
      out = concat marks ∧
      markings (Z.to_nat 1)
        (λ l, count l (paired_labels [10; 20; 30; 40; 50; 60] [0; 0; 0; 1; 1; 1]))
        (first_occurrences (paired_labels [10; 20; 30; 40; 50; 60] [0; 0; 0; 1; 1; 1]))
        marks.
Proof.
  assert (∀ l, l ∈ [0; 0; 0; 1; 1; 1] →
               1 ≤ Z.of_nat (count l (paired_labels [10; 20; 30; 40; 50; 60]
                                        [0; 0; 0; 1; 1; 1]))) as Hsize.
  { intros l Hl. listed Hl; by vm_compute. }
  assert (∀ l, l ∈ [0; 0; 0; 1; 1; 1] → np.is_int64 l) as Hint.
  { intros l Hl. unfold np.is_int64. listed Hl; lia. }
  split; [lia|]. split; [exact Hint|]. split; [exact Hsize|].
  apply (sample_cluster_seeds_reveals (Env := Demo.env true)); [lia|exact Hint|exact Hsize].
Defined.

(** C3 on five points whose labels interleave. *)
Lemma sample_cluster_seeds_regrouped_witness :
  length [10; 20; 30; 40; 50] = length [0; 1; 0; 2; 1] ∧
  0 ≤ 1 ∧
  (∀ l, l ∈ [0; 1; 0; 2; 1] → 1 ≤ Z.of_nat (count l [0; 1; 0; 2; 1])) ∧
  regrouped_order [0; 1; 0; 2; 1] = [0; 2; 1; 4; 3]%nat ∧
  (∃ (sampled : gset nat) out st',
    sample_cluster_seeds (Env := Demo.env true) [10; 20; 30; 40; 50] [0; 1; 0; 2; 1]
      1 "mean" (Demo.start true 4) = (inr out, st') ∧
    length out = length [0; 1; 0; 2; 1] ∧
    out = np.array (revealed [0; 1; 0; 2; 1] sampled <$> regrouped_order [0; 1; 0; 2; 1]) ∧
    (Forall np.is_int64 [0; 1; 0; 2; 1] →
     out = revealed [0; 1; 0; 2; 1] sampled <$> regrouped_order [0; 1; 0; 2; 1]) ∧
    (∀ i, i ∈ sampled → (i < length [0; 1; 0; 2; 1])%nat) ∧
    (∀ l, l ∈ [0; 1; 0; 2; 1] →
       length (filter (λ i, i ∈ sampled) (positions_of l [0; 1; 0; 2; 1])) = Z.to_nat 1)) ∧
  concat (original_index_by_cluster [10; 20; 30; 40; 50] [0; 1; 0; 2; 1]).*2 =
    regrouped_order [0; 1; 0; 2; 1] ∧
  regrouped_order [0; 1; 0; 2; 1] ≡ₚ seq 0 (length [0; 1; 0; 2; 1]) ∧
  ∃ labels', regrouped_order labels' ≠ seq 0 (length labels').
Proof.
  assert (∀ l, l ∈ [0; 1; 0; 2; 1] → 1 ≤ Z.of_nat (count l [0; 1; 0; 2; 1])) as Hsize.
  { intros l Hl. listed Hl; by vm_compute. }
  split; [reflexivity|]. split; [lia|]. split; [exact Hsize|]. split; [reflexivity|].
  apply (sample_cluster_seeds_regrouped (Env := Demo.env true));
    [reflexivity|lia|exact Hsize].
Defined.

(** C6 on a labelling whose label 2 has one point, with two seeds per label. *)
Lemma sample_cluster_seeds_insufficient_witness :
  (∃ l, l ∈ paired_labels [10; 20; 30; 40; 50; 60] [0; 1; 0; 1; 2; 1] ∧
        Z.of_nat (count l (paired_labels [10; 20; 30; 40; 50; 60] [0; 1; 0; 1; 2; 1])) < 2) ∧
  ∃ st',
    sample_cluster_seeds (Env := Demo.env true) [10; 20; 30; 40; 50; 60]
      [0; 1; 0; 1; 2; 1] 2 "mean" (Demo.start true 4) = (inl SAMPLE_ERROR, st').
Proof.
  assert (∃ l, l ∈ paired_labels [10; 20; 30; 40; 50; 60] [0; 1; 0; 1; 2; 1] ∧
               Z.of_nat (count l (paired_labels [10; 20; 30; 40; 50; 60]
                                    [0; 1; 0; 1; 2; 1])) < 2) as Hsmall.
  { exists 2. split; [|by vm_compute]. vm_compute. do 4 right. by left. }
  split; [exact Hsmall|].
  apply (sample_cluster_seeds_insufficient (Env := Demo.env true)). exact Hsmall.
Defined.

(** C8 on two feature matrices of four rows. *)
Lemma sample_cluster_seeds_ignores_features_witness :
  length [10; 20; 30; 40] = length [7; 7; 7; 7] ∧
  sample_cluster_seeds (Env := Demo.env true) [10; 20; 30; 40] [0; 1; 0; 1] 1 "mean"
    (Demo.start true 3) =
  sample_cluster_seeds (Env := Demo.env true) [7; 7; 7; 7] [0; 1; 0; 1] 1 "mean"
    (Demo.start true 3).
Proof.
  split; [reflexivity|].
  apply (sample_cluster_seeds_ignores_features (Env := Demo.env true)). reflexivity.
Defined.

(** C10 on three feature rows and five labels. *)
Lemma sample_cluster_seeds_unequal_lengths_witness :
  length [10; 20; 30] ≠ length [0; 1; 0; 1; 2] ∧
  sample_cluster_seeds (Env := Demo.env true) [10; 20; 30] [0; 1; 0; 1; 2] 1 "mean"
    (Demo.start true 3) =
    sample_cluster_seeds (Env := Demo.env true) (take 3 [10; 20; 30])
      (take 3 [0; 1; 0; 1; 2]) 1 "mean" (Demo.start true 3) ∧
  (∀ e st',
     sample_cluster_seeds (Env := Demo.env true) [10; 20; 30] [0; 1; 0; 1; 2] 1 "mean"
       (Demo.start true 3) = (inl e, st') → e = SAMPLE_ERROR) ∧
  ∃ out st',
    sample_cluster_seeds (Env := Demo.env true) [10; 20; 30] [0; 1; 0; 1; 2] 1 "mean"
      (Demo.start true 3) = (inr out, st') ∧
    length out = 3%nat.
Proof.
  assert (length [10; 20; 30] ≠ length [0; 1; 0; 1; 2]) as Hne by (simpl; lia).
  destruct (sample_cluster_seeds_unequal_lengths (Env := Demo.env true)
              [10; 20; 30] [0; 1; 0; 1; 2] 1 "mean" (Demo.start true 3) Hne)
    as (Hcut & Hexn & Hreturns).
  split; [exact Hne|]. split; [exact Hcut|]. split; [exact Hexn|].
  apply Hreturns; [lia|].
  intros l Hl. vm_compute in Hl. listed Hl; by vm_compute.
Defined.

(** C2 fails as stated when an identifier is listed twice: with one seed,
    ["KMeans"] maps to two records. *)
Lemma compare_algorithms_listed_twice :
  collaborators_return (Env := Demo.env true) [10; 20; 30; 40; 50; 60]
    [0; 1; 0; 1; 2; 1] 3 None ∧
  Forall (λ a, a ∈ ALGORITHMS) ["KMeans"; "KMeans"] ∧
  ∃ tbl st' records,
    compare_algorithms (Env := Demo.env true) [10; 20; 30; 40; 50; 60]
      [0; 1; 0; 1; 2; 1] 3 None ["KMeans"; "KMeans"] 1 false (Demo.start true 0)
    = (inr tbl, st') ∧
    tbl !! "KMeans" = Some records ∧
    length records = 2%nat.
Proof.
  split; [by apply demo_collaborators_return|].
  split; [compute_done|].
  assert (match (compare_algorithms (Env := Demo.env true) [10; 20; 30; 40; 50; 60]
                   [0; 1; 0; 1; 2; 1] 3 None ["KMeans"; "KMeans"] 1 false
                   (Demo.start true 0)).1 with
          | inr tbl => length <$> tbl !! "KMeans"
          | inl _ => None
          end = Some 2%nat) as Hrun by (by vm_compute).
  destruct (compare_algorithms _ _ _ _ _ _ _ _) as [[e|tbl] st']; [done|].
  simpl in Hrun. destruct (tbl !! "KMeans") as [records|] eqn:Hrecords; [|done].
  exists tbl, st', records. split_and!; [done|done|]. by inversion Hrun.
Qed.

(** With a stand-in library that refuses to fit, the exception of the
    first fit is the outcome of the harness. *)
Lemma compare_algorithms_fit_raises :
  compare_algorithms (Env := Demo.env true) [10; 20; 30; 40; 50; 60]
    [0; 1; 0; 1; 2; 1] 0 None ALGORITHMS 2 false (Demo.start true 5)
  = (inl (LibraryError "n_clusters must be positive"),
     @mkState (Demo.env true) 0%nat [] ["KMeans.fit"]) ∧
  KMeans_fit (Environment := Demo.env true) 0 [10; 20; 30; 40; 50; 60] 0%nat
  = (inl (LibraryError "n_clusters must be positive"), 0%nat).
Proof. split; reflexivity. Qed.

(** C2 on the four algorithms of the closed set and two seeds. *)
Lemma compare_algorithms_table_witness :
  Forall (λ a, a ∈ ALGORITHMS) ALGORITHMS ∧
  0 < 2 ∧
  ∃ tbl st',
    compare_algorithms (Env := Demo.env true) [10; 20; 30; 40; 50; 60]
      [0; 1; 0; 1; 2; 1] 3 (Some 10) ALGORITHMS 2 true (Demo.start true 0)
    = (inr tbl, st') ∧
    (∃ records : list (metric_record (Env := Demo.env true)),
       tbl !! "SeededKMeans" = Some records ∧ Z.of_nat (length records) = 2) ∧
    (∃ tbl_1 st_1,
       compare_algorithms (Env := Demo.env true) [10; 20; 30; 40; 50; 60]
         [0; 1; 0; 1; 2; 1] 3 (Some 10) ALGORITHMS 1 true (Demo.start true 0)
       = (inr tbl_1, st_1) ∧
       records_of tbl_1 "SeededKMeans" = take 1 (records_of tbl "SeededKMeans")).
Proof.
  assert (Forall (λ a, a ∈ ALGORITHMS) ALGORITHMS) as Hall.
  { apply Forall_forall. by intros a Ha. }
  assert (NoDup ALGORITHMS) as Hnd.
  { compute_done. }
  split; [exact Hall|]. split; [lia|].
  pose proof (compare_algorithms_table (Env := Demo.env true) [10; 20; 30; 40; 50; 60]
                [0; 1; 0; 1; 2; 1] 3 (Some 10) ALGORITHMS 2 true (Demo.start true 0)
                Hall eq_refl) as Htable.
  destruct (compare_algorithms_rounds (Env := Demo.env true) [10; 20; 30; 40; 50; 60]
              [0; 1; 0; 1; 2; 1] 3 (Some 10) ALGORITHMS true
              (demo_collaborators_return true _ _ 3 (Some 10) eq_refl) eq_refl 2
              (Demo.start true 0) Hall) as (tbl & st' & Hrun & _).
  change (Z.of_nat 2) with 2 in Hrun. rewrite Hrun in Htable.
  destruct Htable as [Hrecords Hprefix].
  assert ("SeededKMeans" ∈ ALGORITHMS) as Hin by compute_done.
  exists tbl, st'. split; [exact Hrun|]. split.
  - destruct (Hrecords "SeededKMeans" Hin) as (records & Hlookup & _ & Hlength).
    exists records. split; [exact Hlookup|]. exact (Hlength Hnd).
  - destruct (Hprefix 1) as (tbl_1 & st_1 & Hrun_1 & Hpre); [lia|].
    exists tbl_1, st_1. split; [exact Hrun_1|].
    rewrite Hpre. by rewrite (occurrences_once "SeededKMeans" ALGORITHMS Hnd Hin).
Defined.

(** C4 fails as stated when a known identifier precedes the unknown one:
    from a state in which no fit has been entered, [KMeans.fit] has been
    entered by the time the harness raises. *)
Lemma compare_algorithms_unknown_after_fit :
  "DBSCAN" ∈ ["KMeans"; "DBSCAN"] ∧ ("DBSCAN" ∉ ALGORITHMS) ∧
  fits (Demo.start true 0) = [] ∧
  compare_algorithms (Env := Demo.env true) [10; 20; 30; 40; 50; 60]
    [0; 1; 0; 1; 2; 1] 3 None ["KMeans"; "DBSCAN"] 1 false (Demo.start true 0)
  = (inl AssertionError, @mkState (Demo.env true) 1%nat [] ["KMeans.fit"]).
Proof.
  split; [compute_done|]. split; [compute_done|]. split; [done|].
  reflexivity.
Qed.

(** C4 on a list that begins with an unknown identifier, over three seeds. *)
Lemma compare_algorithms_unknown_witness :
  (∃ a, a ∈ ["DBSCAN"; "KMeans"] ∧ a ∉ ALGORITHMS) ∧
  0 < 3 ∧
  (∃ e st',
     compare_algorithms (Env := Demo.env true) [10; 20; 30; 40; 50; 60]
       [0; 1; 0; 1; 2; 1] 3 None ["DBSCAN"; "KMeans"] 3 true (Demo.start true 0)
     = (inl e, st')) ∧
  ∃ st',
    compare_algorithms (Env := Demo.env true) [10; 20; 30; 40; 50; 60]
      [0; 1; 0; 1; 2; 1] 3 None ["DBSCAN"; "KMeans"] 3 true (Demo.start true 0)
    = (inl (unsupported (Env := Demo.env true) "DBSCAN"), st') ∧
    fits st' = fits (Demo.start true 0).
Proof.
  assert ("DBSCAN" ∉ ALGORITHMS) as Hnot by compute_done.
  assert (∃ a, a ∈ ["DBSCAN"; "KMeans"] ∧ a ∉ ALGORITHMS) as Hbad.
  { exists "DBSCAN". split; [by left|exact Hnot]. }
  destruct (compare_algorithms_unknown (Env := Demo.env true) [10; 20; 30; 40; 50; 60]
              [0; 1; 0; 1; 2; 1] 3 None ["DBSCAN"; "KMeans"] 3 true (Demo.start true 0)
              Hbad eq_refl)
    as (Hraises & Hfirst).
  split; [exact Hbad|]. split; [lia|]. split; [exact Hraises|].
  by apply (Hfirst "DBSCAN" ["KMeans"]).
Defined.

(** C5 fails as stated with assertions enabled: the [AssertionError] that
    [extract_features] and [cluster] raise carries no message, so it does
    not name the unsupported value. *)
Lemma unsupported_value_not_named :
  ("word2vec" ∉ FEATURE_EXTRACTORS) ∧ ("DBSCAN" ∉ ALGORITHMS) ∧
  extract_features (Env := Demo.env true) ["a"; "b"] "word2vec" false
    (Demo.start true 0) = (inl AssertionError, Demo.start true 0) ∧
  contains "word2vec" (exn_message AssertionError) = false ∧
  cluster (Env := Demo.env true) "DBSCAN" [10; 20] [0; 1] 2 None
    (Demo.start true 0) = (inl AssertionError, Demo.start true 0) ∧
  contains "DBSCAN" (exn_message AssertionError) = false.
Proof.
  split; [compute_done|]. split; [compute_done|].
  split_and!; reflexivity.
Qed.

(** C5 on an unknown extractor and an unknown algorithm, with assertions enabled and stripped. *)
Lemma unsupported_value_raises_witness :
  ("word2vec" ∉ FEATURE_EXTRACTORS) ∧ ("DBSCAN" ∉ ALGORITHMS) ∧
  extract_features (Env := Demo.env true) ["a"; "b"] "word2vec" false
    (Demo.start true 0) = (inl AssertionError, Demo.start true 0) ∧
  extract_features (Env := Demo.env false) ["a"; "b"] "word2vec" false
    (Demo.start false 0) = (inr PyNone, Demo.start false 0) ∧
  (∃ e, cluster (Env := Demo.env true) "DBSCAN" [10; 20] [0; 1] 2 None (Demo.start true 0)
        = (inl e, Demo.start true 0)) ∧
  cluster (Env := Demo.env false) "DBSCAN" [10; 20] [0; 1] 2 None (Demo.start false 0)
    = (inl (ValueError "Algorithm DBSCAN not supported."), Demo.start false 0) ∧
  contains "DBSCAN" "Algorithm DBSCAN not supported." = true.
Proof.
  assert ("word2vec" ∉ FEATURE_EXTRACTORS) as Hfe by compute_done.
  assert ("DBSCAN" ∉ ALGORITHMS) as Halgo by compute_done.
  destruct (unsupported_value_raises (Env := Demo.env true) "word2vec" "DBSCAN"
              ["a"; "b"] false [10; 20] [0; 1] 2 None (Demo.start true 0) Hfe Halgo)
    as (Hextract & _ & e & Hcluster & _).
  destruct (unsupported_value_raises (Env := Demo.env false) "word2vec" "DBSCAN"
              ["a"; "b"] false [10; 20] [0; 1] 2 None (Demo.start false 0) Hfe Halgo)
    as (Hextract' & _ & e' & Hcluster' & Hnamed).
  destruct (Hnamed eq_refl) as [-> Hcontains].
  split; [exact Hfe|]. split; [exact Halgo|]. split; [exact Hextract|].
  split; [exact Hextract'|]. split; [by exists e|].
  split; [exact Hcluster'|exact Hcontains].
Defined.

End ConcreteRuns.

(** * Further properties *)

(** ** What a computation leaves alone *)

Section Keeping.
Context `{Env : Environment}.
Context (component : state → list string).
Hypothesis component_world :
  ∀ st w, component (mkState w (stdout st) (fits st)) = component st.

Lemma keeps_ret {A} (a : A) : keeps component (ret a).
Proof. by intros st. Qed.

Lemma keeps_raise {A} (e : exn) : keeps component (raise (A := A) e).
Proof. by intros st. Qed.

Lemma keeps_bind {A B} (m : M A) (f : A → M B) :
  keeps component m → (∀ a, keeps component (f a)) → keeps component (bind m f).
Proof.
  intros Hm Hf st. unfold bind. specialize (Hm st).
  destruct (m st) as [[e|a] st']; simpl in *; [done|]. by rewrite Hf.
Qed.

Lemma keeps_call {A} (f : world → (exn + A) * world) : keeps component (call f).
Proof. intros st. unfold call. destruct (f (ext st)) as [r w]. apply component_world. Qed.

Lemma keeps_pure_call {A} (r : exn + A) : keeps component (pure_call r).
Proof. by intros st. Qed.

Lemma keeps_py_assert (cond : bool) : keeps component (py_assert cond).
Proof. unfold py_assert. destruct (py_debug && negb cond); by intros st. Qed.

Lemma keeps_for_each {A S} (xs : list A) (body : A → S → M S) (s : S) :
  (∀ x s, keeps component (body x s)) → keeps component (for_each xs body s).
Proof.
  intros Hbody. revert s. induction xs as [|x xs IH]; intros s; [by intros st|].
  cbn [for_each]. apply keeps_bind; [apply Hbody|apply IH].
Qed.

Lemma keeps_random_sample (n : nat) (k : Z) : keeps component (random_sample n k).
Proof. unfold random_sample. case_bool_decide; [apply keeps_call|apply keeps_raise]. Qed.

Lemma keeps_sample_cluster_seeds {F} (features : list F) (labels : list Z) (k : Z)
    (aggregate : string) :
  keeps component (sample_cluster_seeds features labels k aggregate).
Proof.
  unfold sample_cluster_seeds. apply keeps_bind; [|intros; apply keeps_ret].
  apply keeps_for_each. intros [label points] acc.
  unfold seed_group. apply keeps_bind; [apply keeps_random_sample|].
  intros drawn. apply keeps_ret.
Qed.

End Keeping.

Section KeepingOutput.
Context `{Env : Environment}.

Lemma stdout_world (st : state) (w : world) :
  stdout (mkState w (stdout st) (fits st)) = stdout st.
Proof. done. Qed.

Lemma fits_world (st : state) (w : world) :
  fits (mkState w (stdout st) (fits st)) = fits st.
Proof. done. Qed.

Lemma keeps_stdout_entering (name : string) : keeps stdout (entering name).
Proof. by intros st. Qed.

Lemma keeps_fits_print (line : string) : keeps fits (print line).
Proof. by intros st. Qed.

Lemma keeps_stdout_cluster (semisupervised_algo : string) (features : list feature)
    (labels : list Z) (num_clusters : Z) (max_feedback_given : option Z) :
  keeps stdout (cluster semisupervised_algo features labels num_clusters max_feedback_given).
Proof.
  unfold cluster.
  repeat first
    [ apply keeps_stdout_entering
    | apply (keeps_sample_cluster_seeds stdout stdout_world)
    | apply (keeps_py_assert stdout)
    | apply (keeps_call stdout stdout_world)
    | apply (keeps_ret stdout)
    | apply (keeps_raise stdout)
    | apply (keeps_bind stdout); [|intros ?]
    | case_decide ].
Qed.

End KeepingOutput.

(** ** More on the seed sampler *)

Section SeedSamplerMore.
Context `{Env : Environment} {F : Type}.
Implicit Types (features : list F) (labels : list Z) (k : Z) (st : state).

Lemma paired_labels_nil features labels :
  features = [] ∨ labels = [] → paired_labels features labels = [].
Proof. unfold paired_labels. intros [-> | ->]; [done|apply take_nil]. Qed.

Lemma first_occurrences_head (l : Z) (labels : list Z) :
  ∃ rest, first_occurrences (l :: labels) = l :: rest.
Proof.
  unfold first_occurrences. simpl.
  assert (∀ seen, ∃ rest,
            fold_left (λ seen l, if decide (l ∈ seen) then seen else seen ++ [l])
              labels (l :: seen) = l :: rest) as Hgen; [|apply (Hgen [])].
  induction labels as [|x labels IH]; intros seen; [by eexists|].
  simpl. case_decide; [apply IH|]. apply (IH (seen ++ [x])).
Qed.

(** A group sampled: the marking and the state of the random source. *)
Lemma seed_group_run {G} (k label : Z) (points : list G) (acc : list Z) st :
  0 ≤ k ≤ Z.of_nat (length points) →
  seed_group k (label, points) acc st =
  (inr (acc ++ mark_group label
                 (list_to_set (choose (length points) (Z.to_nat k) (ext st)).1) points),
   mkState (choose (length points) (Z.to_nat k) (ext st)).2 (stdout st) (fits st)).
Proof.
  intros Hk. unfold seed_group, bind, random_sample, call.
  rewrite bool_decide_eq_true_2 by done.
  by destruct (choose _ _ _) as [drawn w].
Qed.

Lemma seed_loop_world {G} (k : Z) (groups : list (Z * list G)) (acc : list Z) st :
  Forall (λ g, 0 ≤ k ≤ Z.of_nat (length g.2)) groups →
  (for_each groups (seed_group k) acc st).2 =
  mkState (draws k ((λ g, length g.2) <$> groups) (ext st)) (stdout st) (fits st).
Proof.
  intros Hall. revert acc st.
  induction Hall as [|[label points] groups Hk _ IH]; intros acc st; [by destruct st|].
  cbn [for_each]. unfold bind at 1. rewrite seed_group_run by done.
  by rewrite IH.
Qed.

Lemma seeded_none (label : Z) (n : nat) (marks : list Z) :
  seeded 0 label n marks → marks = replicate n UNKNOWN.
Proof.
  intros (sample & Hsize & _ & ->). apply size_empty_inv in Hsize.
  replace (replicate n UNKNOWN) with (replicate (length (seq 0 n)) UNKNOWN)
    by (by rewrite length_seq).
  apply const_fmap.
  intros i x _. rewrite decide_False; [done|]. rewrite Hsize. set_solver.
Qed.

Lemma seeded_full (label : Z) (n : nat) (marks : list Z) :
  seeded n label n marks → marks = replicate n label.
Proof.
  intros (sample & Hsize & Hbound & ->).
  assert (sample ≡ list_to_set (seq 0 n)) as Hall.
  { apply set_subseteq_size_equiv.
    - intros i Hi. apply elem_of_list_to_set, elem_of_seq. specialize (Hbound i Hi). lia.
    - rewrite size_list_to_set by apply NoDup_seq. rewrite length_seq. lia. }
  replace (replicate n label) with (replicate (length (seq 0 n)) label)
    by (by rewrite length_seq).
  apply const_fmap.
  intros i x Hx. rewrite decide_True; [done|].
  rewrite Hall. apply elem_of_list_to_set. by eapply list_elem_of_lookup_2.
Qed.

Lemma markings_exact (k : nat) (size_of : Z → nat) (g : Z → list Z)
    (keys : list Z) (marks : list (list Z)) :
  markings k size_of keys marks →
  (∀ l m, l ∈ keys → seeded k l (size_of l) m → m = g l) →
  marks = g <$> keys.
Proof.
  intros Hm. induction Hm as [|l m keys marks Hl _ IH]; intros Hg; [done|].
  csimpl. f_equal.
  - apply Hg; [by left|done].
  - apply IH. intros l' m' Hin. apply Hg. by right.
Qed.

(** X1.  With no point to pair (no feature row or no label) the sampler
    returns the empty vector and draws nothing, whatever
    [num_seed_points_per_label] is, negative or huge: the number is only
    looked at once a group exists. *)
Theorem sample_cluster_seeds_no_points features labels k (aggregate : string) st :
  features = [] ∨ labels = [] →
  sample_cluster_seeds features labels k aggregate st = (inr [], st).
Proof.
  intros Hnil. rewrite sample_cluster_seeds_labels, paired_labels_nil by done. done.
Qed.

(** X2.  A negative [num_seed_points_per_label] makes the sampler raise the
    [ValueError] of [random.sample] as soon as there is one point, before
    anything is drawn. *)
Theorem sample_cluster_seeds_negative features labels k (aggregate : string) st :
  k < 0 → features ≠ [] → labels ≠ [] →
  sample_cluster_seeds features labels k aggregate st = (inl SAMPLE_ERROR, st).
Proof.
  intros Hk Hf Hl. rewrite sample_cluster_seeds_labels.
  destruct features as [|f features]; [done|]. destruct labels as [|l labels]; [done|].
  unfold paired_labels, label_groups. simpl.
  destruct (first_occurrences_head l (take (length features) labels)) as (rest & ->).
  rewrite fmap_cons. cbn [for_each]. unfold bind.
  rewrite seed_group_fail; [done|]. lia.
Qed.

(** X3.  With [num_seed_points_per_label = 0] nothing is revealed: the
    sampler returns the sentinel at every paired position. *)
Theorem sample_cluster_seeds_zero features labels (aggregate : string) st :
  ∃ st',
    sample_cluster_seeds features labels 0 aggregate st =
    (inr (replicate (length features `min` length labels) UNKNOWN), st').
Proof.
  destruct (sample_cluster_seeds_ok features labels 0 aggregate st)
    as (marks & w & Hrun & Hmarks); [lia|intros; lia|].
  destruct (sample_cluster_seeds_returns features labels 0 aggregate st)
    as (out & w' & Hrun' & Hlen); [lia|intros; lia|].
  rewrite Hrun in Hrun'. injection Hrun' as <- <-.
  assert (Forall (λ y, y = UNKNOWN) (concat marks)) as Hall.
  { apply Forall_forall. intros y Hy. apply elem_of_concat in Hy as (m & Hy & Hm).
    apply list_elem_of_lookup in Hm as (i & Hm).
    destruct (Forall2_lookup_r _ _ _ _ _ Hmarks Hm) as (l & _ & Hseeded).
    apply seeded_none in Hseeded. subst m. by apply elem_of_replicate_inv in Hy. }
  rewrite np_array_exact in Hrun, Hlen
    by (eapply Forall_impl; [done|]; intros y ->; unfold np.is_int64, UNKNOWN; lia).
  eexists. rewrite Hrun. do 2 f_equal.
  symmetry. apply replicate_as_elem_of. split; [done|]. by apply Forall_forall.
Qed.

(** X4.  When the paired labels fit int64 and every one of them has exactly
    [num_seed_points_per_label] paired points everything is revealed: the
    sampler returns the label vector itself in the reconstructed order. *)
Theorem sample_cluster_seeds_all_revealed features labels k (aggregate : string) st :
  (∀ l, l ∈ paired_labels features labels → np.is_int64 l) →
  (∀ l, l ∈ paired_labels features labels →
        Z.of_nat (count l (paired_labels features labels)) = k) →
  ∃ st',
    sample_cluster_seeds features labels k aggregate st =
    (inr (grouped_labels (paired_labels features labels)), st').
Proof.
  intros Hint Hsize.
  destruct (paired_labels features labels) as [|l0 ps0] eqn:Hps.
  { exists st. rewrite sample_cluster_seeds_labels, Hps. done. }
  assert (0 ≤ k) as Hk.
  { rewrite <- (Hsize l0) by by left. lia. }
  rewrite <- Hps in *. clear Hps.
  destruct (sample_cluster_seeds_exact features labels k aggregate st)
    as (marks & w & Hrun & Hmarks); [done| |].
  { intros l Hl. split; [by apply Hint|]. by rewrite (Hsize l Hl). }
  eexists. rewrite Hrun. do 2 f_equal. unfold grouped_labels. f_equal.
  apply (markings_exact _ _ _ _ _ Hmarks).
  intros l m Hl Hseeded. rewrite elem_of_first_occurrences in Hl.
  specialize (Hsize l Hl).
  replace (Z.to_nat k) with (count l (paired_labels features labels)) in Hseeded by lia.
  by apply seeded_full.
Qed.

(** X5.  The sampler is silent and calls no library fit: whatever the
    input and the outcome, standard output and the record of entered fits
    are what they were; only the random source moves. *)
Theorem sample_cluster_seeds_no_output features labels k (aggregate : string) st :
  stdout (sample_cluster_seeds features labels k aggregate st).2 = stdout st ∧
  fits (sample_cluster_seeds features labels k aggregate st).2 = fits st.
Proof.
  split.
  - apply (keeps_sample_cluster_seeds stdout stdout_world).
  - apply (keeps_sample_cluster_seeds fits fits_world).
Qed.

(** X6.  When every label group is large enough the random source is
    advanced by exactly one draw per distinct label, in order of first
    occurrence, each of [num_seed_points_per_label] positions out of the
    size of the group. *)
Theorem sample_cluster_seeds_draws features labels k (aggregate : string) st :
  0 ≤ k →
  (∀ l, l ∈ paired_labels features labels →
        k ≤ Z.of_nat (count l (paired_labels features labels))) →
  ext (sample_cluster_seeds features labels k aggregate st).2 =
  draws k ((λ l, count l (paired_labels features labels)) <$>
             first_occurrences (paired_labels features labels)) (ext st).
Proof.
  intros Hk Hsize. rewrite sample_cluster_seeds_labels, bind_ret_state, seed_loop_world.
  - simpl. unfold label_groups. rewrite <- list_fmap_compose. f_equal.
    apply list_fmap_ext. intros _ l _. simpl. by rewrite length_replicate.
  - unfold label_groups. apply Forall_fmap, Forall_forall. intros l Hl. simpl.
    rewrite length_replicate. split; [done|].
    by apply Hsize, elem_of_first_occurrences.
Qed.

End SeedSamplerMore.

(** ** The reconstructed order on grouped input, and the two dictionaries *)

Section Regrouping.
Context `{Env : Environment}.

Lemma contiguous_init (labels : list Z) (x : Z) :
  contiguous (labels ++ [x]) → contiguous labels.
Proof.
  intros Hc i j k l Hijk Hi Hk. pose proof (lookup_lt_Some _ _ _ Hk) as Hlt.
  specialize (Hc i j k l Hijk).
  rewrite !lookup_app_l in Hc by lia. by apply Hc.
Qed.

Lemma contiguous_last (labels : list Z) (x : Z) :
  contiguous (labels ++ [x]) → x ∈ labels → last labels = Some x.
Proof.
  intros Hc (i & Hi)%list_elem_of_lookup.
  pose proof (lookup_lt_Some _ _ _ Hi) as Hlt. rewrite last_lookup.
  destruct (decide (i = pred (length labels))) as [->|Hne]; [done|].
  specialize (Hc i (pred (length labels)) (length labels) x).
  rewrite (lookup_app_l labels [x] i), list_lookup_middle in Hc by (done || lia).
  rewrite (lookup_app_l labels [x] (pred (length labels))) in Hc by lia.
  apply Hc; [lia|done|done].
Qed.

Lemma last_first_occurrences (labels : list Z) (x : Z) :
  contiguous labels → last labels = Some x → last (first_occurrences labels) = Some x.
Proof.
  revert x. induction labels as [|y labels IH] using rev_ind; intros x Hc Hlast; [done|].
  rewrite last_snoc in Hlast. injection Hlast as ->.
  rewrite first_occurrences_snoc. case_decide as Hx; [|apply last_snoc].
  apply IH; [by eapply contiguous_init|].
  apply contiguous_last; [done|by apply elem_of_first_occurrences].
Qed.

Lemma regrouped_order_snoc_last (labels : list Z) (x : Z) :
  x ∉ labels ∨ last (first_occurrences labels) = Some x →
  regrouped_order (labels ++ [x]) = regrouped_order labels ++ [length labels].
Proof.
  intros Hx. unfold regrouped_order.
  rewrite (list_fmap_ext _ (λ l, positions_of l labels ++
             if decide (x = l) then [length labels] else []))
    by (intros; apply positions_of_snoc).
  assert (∀ keys : list Z, x ∉ keys →
            (λ l, positions_of l labels ++ if decide (x = l) then [length labels] else [])
              <$> keys = (λ l, positions_of l labels) <$> keys) as Hsame.
  { intros keys Hkeys. apply list_fmap_ext. intros i l Hl.
    apply list_elem_of_lookup_2 in Hl.
    rewrite decide_False; [by rewrite app_nil_r|by intros <-]. }
  rewrite first_occurrences_snoc. case_decide as Hin.
  - destruct Hx as [Hx|Hlast]; [by rewrite elem_of_first_occurrences in Hin|].
    apply last_Some in Hlast as (keys & Hkeys).
    pose proof (NoDup_first_occurrences labels) as Hnd. rewrite Hkeys in Hnd |- *.
    apply NoDup_app in Hnd as (_ & Hnot & _).
    rewrite !fmap_app, !concat_app, Hsame.
    + simpl. rewrite decide_True, !app_nil_r by done. by rewrite app_assoc.
    + intros Hx'. apply (Hnot x Hx'). by left.
  - rewrite fmap_app, concat_app, Hsame by done. simpl.
    rewrite decide_True, app_nil_r by done.
    rewrite positions_of_absent; [done|]. by rewrite <- elem_of_first_occurrences.
Qed.

(** On a label vector whose equal labels sit together the reconstructed
    order is the input order. *)
Lemma regrouped_order_contiguous (labels : list Z) :
  contiguous labels → regrouped_order labels = seq 0 (length labels).
Proof.
  induction labels as [|x labels IH] using rev_ind; intros Hc; [done|].
  rewrite regrouped_order_snoc_last.
  - rewrite IH by by eapply contiguous_init. rewrite length_app. simpl.
    replace (length labels + 1)%nat with (S (length labels)) by lia.
    by rewrite seq_S.
  - destruct (decide (x ∈ labels)) as [Hx|Hx]; [right|by left].
    apply last_first_occurrences; [by eapply contiguous_init|].
    by apply contiguous_last.
Qed.

(** X7.  On sequences of equal length whose labels fit int64 and whose
    equal labels sit together (a dataset stored class by class) the output
    lines up with the input: the entry at each index is the label of the
    point at that index, or the sentinel. *)
Theorem sample_cluster_seeds_aligned {F} (features : list F) (labels : list Z) (k : Z)
    (aggregate : string) (st : state) :
  length features = length labels →
  contiguous labels →
  (∀ l, l ∈ labels → np.is_int64 l) →
  0 ≤ k →
  (∀ l, l ∈ labels → k ≤ Z.of_nat (count l labels)) →
  regrouped_order labels = seq 0 (length labels) ∧
  ∃ out st',
    sample_cluster_seeds features labels k aggregate st = (inr out, st') ∧
    Forall2 (λ y l, y = l ∨ y = UNKNOWN) out labels.
Proof.
  intros Hlen Hc Hint Hk Hsize.
  pose proof (paired_labels_same_length features labels Hlen) as Hps.
  pose proof (regrouped_order_contiguous labels Hc) as Horder.
  split; [done|].
  destruct (sample_cluster_seeds_exact features labels k aggregate st)
    as (marks & w & Hrun & Hmarks); [done|rewrite Hps; by split; auto|].
  rewrite Hps in Hmarks.
  assert (Forall2 (λ y i, labels !! i = Some y ∨ y = UNKNOWN)
            (concat marks) (regrouped_order labels)) as Hal.
  { apply (markings_aligned (Z.to_nat k) (λ l, count l labels) labels _ marks
             (λ l, positions_of l labels) Hmarks).
    - intros l _. apply length_positions_of.
    - intros l i. apply positions_of_label. }
  rewrite Horder in Hal. eexists _, _. split; [done|].
  apply Forall2_same_length_lookup. split.
  - by rewrite (Forall2_length _ _ _ Hal), length_seq.
  - intros i y l Hy Hl.
    pose proof (lookup_lt_Some _ _ _ Hl) as Hlt.
    destruct (Forall2_lookup_lr _ _ _ i y i Hal Hy) as [Hi|];
      [by apply lookup_seq_lt|left; congruence|by right].
Qed.

Lemma points_at_positions {F} (l : Z) (pairs : list (F * Z)) :
  Forall2 (λ p i, pairs !! i = Some (p, l)) (points_of l pairs) (positions_of l pairs.*2).
Proof.
  induction pairs as [|[f x] pairs IH] using rev_ind; [constructor|].
  rewrite points_of_snoc, fmap_app. csimpl.
  rewrite positions_of_snoc, length_fmap.
  apply Forall2_app.
  - eapply Forall2_impl; [done|]. intros p i Hp. by apply lookup_app_l_Some.
  - destruct (decide (x = l)) as [->|]; [|constructor].
    constructor; [|constructor]. by apply list_lookup_middle.
Qed.

(** X8.  The two dictionaries of the sampler run in parallel and lose no
    point: they hold the same labels in the same order; the rows filed
    under a label are the feature rows at the positions filed under it, and
    those positions carry that label; and every paired position is filed
    exactly once. *)
Theorem dictionaries_parallel {F} (features : list F) (labels : list Z) :
  Forall2 (λ points indices,
             points.1 = indices.1 ∧
             Forall2 (λ p i, features !! i = Some p ∧ labels !! i = Some points.1)
               points.2 indices.2)
    (points_by_cluster features labels) (original_index_by_cluster features labels) ∧
  concat (original_index_by_cluster features labels).*2 ≡ₚ
    seq 0 (length features `min` length labels).
Proof.
  split.
  - unfold points_by_cluster, original_index_by_cluster, group_by_label.
    rewrite grouped_spec. simpl.
    apply Forall2_fmap, Forall_Forall2_diag, Forall_forall. intros l _. simpl.
    split; [done|]. eapply Forall2_impl; [apply points_at_positions|].
    intros p i Hp. simpl in Hp.
    apply lookup_zip_with_Some in Hp as (f & x & [= -> ->] & Hf & Hx). done.
  - rewrite original_index_by_cluster_order, regrouped_order_permutation.
    by rewrite length_paired_labels.
Qed.

End Regrouping.

(** ** Runs from similar states *)

Section Relating.
Context `{Env : Environment}.
Context (b : bool).

Lemma sim_refl (st : state) : sim b st st.
Proof. by split. Qed.

Lemma related_ret {A} (a : A) : related b (ret a) (ret a).
Proof. by intros st st' Hsim. Qed.

Lemma related_raise {A} (e : exn) : related b (raise (A := A) e) (raise e).
Proof. by intros st st' Hsim. Qed.

Lemma related_bind {A B} (m m' : M A) (f f' : A → M B) :
  related b m m' → (∀ a, related b (f a) (f' a)) → related b (bind m f) (bind m' f').
Proof.
  intros Hm Hf st st' Hsim. unfold bind. destruct (Hm st st' Hsim) as [Hr Hsim'].
  destruct (m st) as [[e|a] st1], (m' st') as [[e'|a'] st1']; simpl in *; try done.
  - by injection Hr as ->.
  - injection Hr as ->. by apply Hf.
Qed.

Lemma related_call {A} (f : world → (exn + A) * world) : related b (call f) (call f).
Proof.
  intros st st' [Hext Hfits]. unfold call. rewrite Hext.
  by destruct (f (ext st')) as [r w].
Qed.

Lemma related_pure_call {A} (r : exn + A) : related b (pure_call r) (pure_call r).
Proof. by intros st st' Hsim. Qed.

Lemma related_entering (name : string) : related b (entering name) (entering name).
Proof.
  intros st st' [Hext Hfits]. split; [done|]. split; [done|].
  intros Hb. simpl. by rewrite Hfits.
Qed.

Lemma related_print (v v' : bool) (line line' : string) :
  related b (when v (print line)) (when v' (print line')).
Proof. intros st st' [Hext Hfits]. by destruct v, v'. Qed.

Lemma related_py_assert (cond : bool) : related b (py_assert cond) (py_assert cond).
Proof. unfold py_assert. destruct (py_debug && negb cond); by intros st st' Hsim. Qed.

Lemma related_for_each {A S} (xs : list A) (body body' : A → S → M S) (s : S) :
  (∀ x s, related b (body x s) (body' x s)) →
  related b (for_each xs body s) (for_each xs body' s).
Proof.
  intros Hbody. revert s. induction xs as [|x xs IH]; intros s; [apply related_ret|].
  cbn [for_each]. apply related_bind; [apply Hbody|apply IH].
Qed.

Lemma related_sample_cluster_seeds {F} (features : list F) (labels : list Z) (k : Z)
    (aggregate : string) :
  related b (sample_cluster_seeds features labels k aggregate)
            (sample_cluster_seeds features labels k aggregate).
Proof.
  unfold sample_cluster_seeds. apply related_bind; [|intros; apply related_ret].
  apply related_for_each. intros [label points] acc.
  unfold seed_group. apply related_bind; [|intros; apply related_ret].
  unfold random_sample. case_bool_decide; [apply related_call|apply related_raise].
Qed.

Lemma related_cluster (semisupervised_algo : string) (features : list feature)
    (labels : list Z) (num_clusters : Z) (max_feedback_given : option Z) :
  related b (cluster semisupervised_algo features labels num_clusters max_feedback_given)
            (cluster semisupervised_algo features labels num_clusters max_feedback_given).
Proof.
  unfold cluster.
  repeat first
    [ apply related_entering
    | apply related_sample_cluster_seeds
    | apply related_py_assert
    | apply related_call
    | apply related_ret
    | apply related_raise
    | apply related_bind; [|intros ?]
    | case_decide ].
Qed.

Context (features : list feature) (labels : list Z) (num_clusters : Z)
        (max_feedback_given : option Z) (algorithms : list string).

Lemma related_run_algorithm (v v' : bool) (seed : Z) (a : string)
    (tbl : gmap string (list metric_record)) :
  related b (run_algorithm features labels num_clusters max_feedback_given v seed a tbl)
            (run_algorithm features labels num_clusters max_feedback_given v' seed a tbl).
Proof.
  unfold run_algorithm.
  repeat first
    [ apply related_print
    | apply related_cluster
    | apply related_pure_call
    | apply related_ret
    | apply related_bind; [|intros ?] ].
Qed.

(** The outer loop body once the seed has been set. *)
Lemma related_after_seed (v v' : bool) (seed : Z)
    (tbl : gmap string (list metric_record)) :
  related b
    (bind (for_each algorithms
             (run_algorithm features labels num_clusters max_feedback_given v seed) tbl)
       (λ tbl', bind (when v (print (String (Ascii.ascii_of_nat 10) EmptyString)))
                  (λ _, ret tbl')))
    (bind (for_each algorithms
             (run_algorithm features labels num_clusters max_feedback_given v' seed) tbl)
       (λ tbl', bind (when v' (print (String (Ascii.ascii_of_nat 10) EmptyString)))
                  (λ _, ret tbl'))).
Proof.
  apply related_bind; [apply related_for_each; intros; apply related_run_algorithm|].
  intros tbl'. apply related_bind; [apply related_print|intros; apply related_ret].
Qed.

Lemma related_run_seed (v v' : bool) (item : nat * Z)
    (tbl : gmap string (list metric_record)) :
  related b
    (run_seed features labels num_clusters max_feedback_given algorithms v item tbl)
    (run_seed features labels num_clusters max_feedback_given algorithms v' item tbl).
Proof.
  destruct item as [i seed]. unfold run_seed.
  apply related_bind; [apply related_print|intros _].
  apply related_bind; [apply related_call|intros _].
  apply related_after_seed.
Qed.

Lemma related_seeds (v v' : bool) (items : list (nat * Z))
    (tbl : gmap string (list metric_record)) :
  related b
    (for_each items
       (run_seed features labels num_clusters max_feedback_given algorithms v) tbl)
    (for_each items
       (run_seed features labels num_clusters max_feedback_given algorithms v') tbl).
Proof. apply related_for_each. intros. apply related_run_seed. Qed.

End Relating.

(** ** More on the dispatch and the harness *)

Section HarnessMore.
Context `{Env : Environment}.
Implicit Types (features : list feature) (labels : list Z) (st : state)
               (tbl : gmap string (list metric_record)).

(** X9.  For the two seeded algorithms [cluster] draws one seed per label
    and hands the drawn vector, one entry per paired point, to the fit of
    that algorithm; the outcome of [cluster] is the outcome of that fit, so
    an exception can only be the library's.  On labels that fit int64 the
    vector holds each label other than -1 exactly once and -1 elsewhere. *)
Theorem cluster_seeded features labels (num_clusters : Z)
    (max_feedback_given : option Z) st :
  ∃ seeds w,
    sample_cluster_seeds features labels 1 "mean" st =
      (inr seeds, mkState w (stdout st) (fits st)) ∧
    length seeds = (length features `min` length labels)%nat ∧
    ((∀ l, l ∈ paired_labels features labels → np.is_int64 l) →
     (∀ l, l ∈ paired_labels features labels → l ≠ UNKNOWN → count l seeds = 1%nat) ∧
     (∀ y, y ∈ seeds → y ∈ paired_labels features labels ∨ y = UNKNOWN)) ∧
    cluster "ConstrainedKMeans" features labels num_clusters max_feedback_given st =
      (let '(r, w') := ConstrainedKMeans_fit num_clusters features seeds w in
       (match r with inl e => inl e | inr assignment => inr (Clusterer assignment) end,
        mkState w' (stdout st) (fits st ++ ["ConstrainedKMeans.fit"]))) ∧
    cluster "SeededKMeans" features labels num_clusters max_feedback_given st =
      (let '(r, w') := SeededKMeans_fit num_clusters features seeds w in
       (match r with inl e => inl e | inr assignment => inr (Clusterer assignment) end,
        mkState w' (stdout st) (fits st ++ ["SeededKMeans.fit"]))).
Proof.
  destruct (sample_cluster_seeds_one features labels "mean" st)
    as (seeds & w & Hrun & Hlen).
  exists seeds, w. split_and!; [done|done| | |].
  - intros Hint.
    destruct (sample_cluster_seeds_exact features labels 1 "mean" st)
      as (marks & w' & Hrun' & Hmarks); [lia| |].
    { intros l Hl. split; [by apply Hint|]. unfold count.
      assert (l ∈ filter (λ x, x = l) (paired_labels features labels)) as Hin
        by (by apply list_elem_of_filter).
      destruct (filter _ _); [by apply elem_of_nil in Hin|simpl; lia]. }
    rewrite Hrun in Hrun'. injection Hrun' as -> <-. split.
    + intros l Hl Hu.
      rewrite (markings_count _ _ _ _ l Hmarks);
        [done| |by apply elem_of_first_occurrences|done].
      apply NoDup_first_occurrences.
    + intros y Hy. destruct (markings_elem _ _ _ _ _ Hmarks Hy) as [Hin|]; [|by right].
      left. by rewrite elem_of_first_occurrences in Hin.
  - unfold cluster, bind.
    rewrite bool_decide_eq_true_2, py_assert_true by compute_done.
    rewrite !decide_False, decide_True by done. rewrite Hrun. simpl. unfold call. simpl.
    by destruct (ConstrainedKMeans_fit _ _ _ _) as [[e|a] w'].
  - unfold cluster, bind.
    rewrite bool_decide_eq_true_2, py_assert_true by compute_done.
    rewrite !decide_False, decide_True by done. rewrite Hrun. simpl. unfold call. simpl.
    by destruct (SeededKMeans_fit _ _ _ _) as [[e|a] w'].
Qed.

Lemma keeps_stdout_quiet_seed features labels (num_clusters : Z)
    (max_feedback_given : option Z) (algorithms : list string) (item : nat * Z) tbl :
  keeps stdout
    (run_seed features labels num_clusters max_feedback_given algorithms false item tbl).
Proof.
  destruct item as [i seed]. unfold run_seed, run_algorithm, when.
  repeat first
    [ apply keeps_stdout_cluster
    | apply (keeps_call stdout stdout_world)
    | apply (keeps_pure_call stdout)
    | apply (keeps_ret stdout)
    | apply (keeps_for_each stdout); intros ? ?
    | apply (keeps_bind stdout); [|intros ?] ].
Qed.

(** X10.  [cluster] never writes to standard output, and with
    [verbose = False] neither does [compare_algorithms], whatever the
    outcome. *)
Theorem harness_silent (semisupervised_algo : string) features labels
    (num_clusters : Z) (max_feedback_given : option Z) (algorithms : list string)
    (num_seeds : Z) st :
  stdout (cluster semisupervised_algo features labels num_clusters
            max_feedback_given st).2 = stdout st ∧
  stdout (compare_algorithms features labels num_clusters max_feedback_given
            algorithms num_seeds false st).2 = stdout st.
Proof.
  split; [apply keeps_stdout_cluster|].
  unfold compare_algorithms. apply (keeps_for_each stdout).
  intros item tbl. apply keeps_stdout_quiet_seed.
Qed.

Lemma range_nonpositive (n : Z) : n ≤ 0 → range n = [].
Proof. intros Hn. unfold range. by replace (Z.to_nat n) with 0%nat by lia. Qed.

(** X11.  With [num_seeds] zero or negative [compare_algorithms] returns
    the empty table and does nothing else; the list of algorithms is not
    looked at, so an unknown identifier goes unnoticed. *)
Theorem compare_algorithms_no_seeds features labels (num_clusters : Z)
    (max_feedback_given : option Z) (algorithms : list string) (num_seeds : Z)
    (verbose : bool) st :
  num_seeds ≤ 0 →
  compare_algorithms features labels num_clusters max_feedback_given algorithms
    num_seeds verbose st = (inr ∅, st).
Proof. intros Hn. unfold compare_algorithms. by rewrite range_nonpositive. Qed.

Lemma run_seed_without_algorithms features labels (num_clusters : Z)
    (max_feedback_given : option Z) (verbose : bool) (item : nat * Z) tbl st :
  ∃ st',
    run_seed features labels num_clusters max_feedback_given [] verbose item tbl st =
    (inr tbl, st') ∧ fits st' = fits st.
Proof.
  destruct item as [i seed]. unfold run_seed, bind.
  destruct (when_print_fits verbose
              ("Starting experiments for " +:+ pretty i +:+ "th seed") st)
    as (st0 & -> & Hfits & _).
  unfold call at 1. cbn [for_each ret].
  destruct (when_print_fits verbose (String (Ascii.ascii_of_nat 10) EmptyString)
              (mkState (set_seed seed (ext st0)) (stdout st0) (fits st0)))
    as (st1 & -> & Hfits1 & _).
  exists st1. split; [done|]. by rewrite Hfits1.
Qed.

Lemma seeds_without_algorithms features labels (num_clusters : Z)
    (max_feedback_given : option Z) (verbose : bool) (items : list (nat * Z)) tbl st :
  ∃ st',
    for_each items
      (run_seed features labels num_clusters max_feedback_given [] verbose) tbl st =
    (inr tbl, st') ∧ fits st' = fits st.
Proof.
  revert st. induction items as [|item items IH]; intros st; [by exists st|].
  cbn [for_each]. unfold bind at 1.
  destruct (run_seed_without_algorithms features labels num_clusters max_feedback_given
              verbose item tbl st) as (st1 & -> & Hfits1).
  destruct (IH st1) as (st' & -> & Hfits').
  exists st'. split; [done|]. by rewrite Hfits', Hfits1.
Qed.

(** X12.  With an empty list of algorithms [compare_algorithms] returns the
    empty table, for any number of seeds, and enters no library fit. *)
Theorem compare_algorithms_no_algorithms features labels (num_clusters : Z)
    (max_feedback_given : option Z) (num_seeds : Z) (verbose : bool) st :
  ∃ st',
    compare_algorithms features labels num_clusters max_feedback_given []
      num_seeds verbose st = (inr ∅, st') ∧
    fits st' = fits st.
Proof. apply seeds_without_algorithms. Qed.

Lemma run_algorithm_inserts features labels (num_clusters : Z)
    (max_feedback_given : option Z) (verbose : bool) (seed : Z) (a : string)
    tbl tbl' st st' :
  run_algorithm features labels num_clusters max_feedback_given verbose seed a tbl st
    = (inr tbl', st') →
  ∃ record, tbl' = <[a := records_of tbl a ++ [record]]> tbl.
Proof.
  unfold run_algorithm, bind, pure_call, ret.
  destruct (when verbose _ st) as [[e|[]] st0]; [done|].
  destruct (cluster _ _ _ _ _ _) as [[e|c] st1]; [done|].
  destruct (adjusted_rand_score _ _) as [e|r]; [done|].
  destruct (normalized_mutual_info_score _ _) as [e|m]; [done|].
  intros [= <- <-]. by eexists.
Qed.

Lemma algorithms_loop_keys features labels (num_clusters : Z)
    (max_feedback_given : option Z) (verbose : bool) (seed : Z)
    (algos : list string) tbl tbl' st st' :
  for_each algos
    (run_algorithm features labels num_clusters max_feedback_given verbose seed) tbl st
    = (inr tbl', st') →
  ∀ a, is_Some (tbl' !! a) → a ∈ algos ∨ is_Some (tbl !! a).
Proof.
  revert tbl st. induction algos as [|a0 algos IH]; intros tbl st.
  - intros [= <- <-] a Ha. by right.
  - cbn [for_each]. unfold bind.
    destruct (run_algorithm _ _ _ _ _ _ a0 tbl st) as [[e|tbl1] st1] eqn:Hrun; [done|].
    apply run_algorithm_inserts in Hrun as (record & ->).
    intros Hrest a Ha. destruct (IH _ _ Hrest a Ha) as [Hin|Hsome]; [left; by right|].
    rewrite lookup_insert in Hsome. case_decide; [subst; left; by left|by right].
Qed.

Lemma seeds_loop_keys features labels (num_clusters : Z)
    (max_feedback_given : option Z) (algorithms : list string) (verbose : bool)
    (items : list (nat * Z)) tbl tbl' st st' :
  for_each items
    (run_seed features labels num_clusters max_feedback_given algorithms verbose) tbl st
    = (inr tbl', st') →
  ∀ a, is_Some (tbl' !! a) → a ∈ algorithms ∨ is_Some (tbl !! a).
Proof.
  revert tbl st. induction items as [|[i seed] items IH]; intros tbl st.
  - intros [= <- <-] a Ha. by right.
  - cbn [for_each]. unfold bind at 1.
    destruct (run_seed _ _ _ _ _ _ _ tbl st) as [[e|tbl1] st1] eqn:Hseed; [done|].
    intros Hrest a Ha. destruct (IH _ _ Hrest a Ha) as [Hin|Hsome]; [by left|].
    revert Hseed. unfold run_seed, bind.
    destruct (when verbose _ st) as [[e|[]] st0]; [done|].
    unfold call at 1.
    destruct (for_each algorithms _ tbl _) as [[e|tbl2] st2] eqn:Hloop; [done|].
    destruct (when verbose _ st2) as [[e|[]] st3]; [done|].
    intros [= <- <-]. by eapply algorithms_loop_keys.
Qed.

(** X13.  A table that [compare_algorithms] returns has no key besides the
    identifiers it was asked to run. *)
Theorem compare_algorithms_keys features labels (num_clusters : Z)
    (max_feedback_given : option Z) (algorithms : list string) (num_seeds : Z)
    (verbose : bool) st tbl st' :
  compare_algorithms features labels num_clusters max_feedback_given algorithms
    num_seeds verbose st = (inr tbl, st') →
  ∀ a, is_Some (tbl !! a) → a ∈ algorithms.
Proof.
  intros Hrun a Ha.
  destruct (seeds_loop_keys _ _ _ _ _ _ _ _ _ _ _ Hrun a Ha) as [Hin|Hsome]; [done|].
  rewrite lookup_empty in Hsome. by destruct Hsome.
Qed.

(** X14.  Verbosity changes standard output and nothing else: from the
    same state, a verbose and a quiet run of [compare_algorithms] end with
    the same table or exception, the same world and the same fits
    entered. *)
Theorem compare_algorithms_verbosity features labels (num_clusters : Z)
    (max_feedback_given : option Z) (algorithms : list string) (num_seeds : Z)
    (verbose verbose' : bool) st :
  let run := compare_algorithms features labels num_clusters max_feedback_given
               algorithms num_seeds verbose st in
  let run' := compare_algorithms features labels num_clusters max_feedback_given
                algorithms num_seeds verbose' st in
  run.1 = run'.1 ∧ ext run.2 = ext run'.2 ∧ fits run.2 = fits run'.2.
Proof.
  intros run run'. subst run run'. unfold compare_algorithms.
  destruct (related_seeds true features labels num_clusters max_feedback_given
              algorithms verbose verbose' (enumerate (range num_seeds)) ∅ st st
              (sim_refl true st)) as (Hr & Hext & Hfits).
  split_and!; [done|done|by apply Hfits].
Qed.

Lemma alike_bind {A B} (m m' : M A) (f f' : A → M B) :
  alike m m' → (∀ a, related false (f a) (f' a)) → alike (bind m f) (bind m' f').
Proof.
  intros Hm Hf st st'. unfold bind. destruct (Hm st st') as [Hr Hsim].
  destruct (m st) as [[e|a] st1], (m' st') as [[e'|a'] st1']; simpl in *; try done.
  - by injection Hr as ->.
  - injection Hr as ->. by apply Hf.
Qed.

Lemma alike_run_seed (Hreset : set_seed_resets) features labels (num_clusters : Z)
    (max_feedback_given : option Z) (algorithms : list string) (v v' : bool)
    (item : nat * Z) tbl :
  alike (run_seed features labels num_clusters max_feedback_given algorithms v item tbl)
        (run_seed features labels num_clusters max_feedback_given algorithms v' item tbl).
Proof.
  destruct item as [i seed]. intros st st'.
  pose proof (related_after_seed false features labels num_clusters max_feedback_given
                algorithms v v' seed tbl) as Hrel.
  assert (∀ (line : string) (verbose : bool) (s : state),
            sim false
              (mkState (set_seed seed (ext (when verbose (print line) s).2))
                 (stdout (when verbose (print line) s).2)
                 (fits (when verbose (print line) s).2))
              (mkState (set_seed seed (ext st)) [] [])) as Hsim.
  { intros line verbose s. split; [|done]. simpl. apply Hreset. }
  specialize (Hrel _ _ (Hsim ("Starting experiments for " +:+ pretty i +:+ "th seed") v st)).
  destruct Hrel as [Hr [Hext _]].
  pose proof (related_after_seed false features labels num_clusters max_feedback_given
                algorithms v' v' seed tbl) as Hrel'.
  specialize (Hrel' _ _ (Hsim ("Starting experiments for " +:+ pretty i +:+ "th seed") v' st')).
  destruct Hrel' as [Hr' [Hext' _]].
  unfold run_seed.
  assert (∀ (verbose : bool) (s : state) (k : M (gmap string (list metric_record))),
            bind (when verbose
                    (print ("Starting experiments for " +:+ pretty i +:+ "th seed")))
              (λ _, bind (call (λ w, (inr (), set_seed seed w))) (λ _, k)) s =
            k (mkState
                 (set_seed seed
                    (ext (when verbose
                            (print ("Starting experiments for " +:+ pretty i +:+ "th seed"))
                            s).2))
                 (stdout (when verbose
                            (print ("Starting experiments for " +:+ pretty i +:+ "th seed"))
                            s).2)
                 (fits (when verbose
                          (print ("Starting experiments for " +:+ pretty i +:+ "th seed"))
                          s).2))) as Hstep.
  { intros verbose s k. by destruct verbose. }
  rewrite !Hstep. split; [congruence|]. split; [|done]. simpl in *. congruence.
Qed.

(** X15.  When [set_seed] overwrites the whole world the harness is
    reproducible: the table or exception that [compare_algorithms] ends
    with is the same from any two starting states, verbose or not; with a
    positive [num_seeds] so is the world it leaves. *)
Theorem compare_algorithms_reproducible features labels (num_clusters : Z)
    (max_feedback_given : option Z) (algorithms : list string) (num_seeds : Z)
    (verbose verbose' : bool) st1 st2 :
  set_seed_resets →
  let run1 := compare_algorithms features labels num_clusters max_feedback_given
                algorithms num_seeds verbose st1 in
  let run2 := compare_algorithms features labels num_clusters max_feedback_given
                algorithms num_seeds verbose' st2 in
  run1.1 = run2.1 ∧ (0 < num_seeds → ext run1.2 = ext run2.2).
Proof.
  intros Hreset run1 run2. subst run1 run2.
  destruct (decide (0 < num_seeds)) as [Hpos|Hneg].
  - destruct (enumerate_range_pos num_seeds Hpos) as (items & Hitems).
    unfold compare_algorithms. rewrite Hitems. cbn [for_each].
    destruct (alike_bind _ _ _ _
                (alike_run_seed Hreset features labels num_clusters max_feedback_given
                   algorithms verbose verbose' (0%nat, 0) ∅)
                (related_seeds false features labels num_clusters max_feedback_given
                   algorithms verbose verbose' items) st1 st2) as (Hr & Hext & _).
    split; [exact Hr|by intros _].
  - unfold compare_algorithms. rewrite !(range_nonpositive num_seeds) by lia.
    split; [done|lia].
Qed.

End HarnessMore.

(** ** More on [extract_features] *)

Section ExtractMore.
Context `{Env : Environment}.
Implicit Types (st : state).

(** X16.  With assertions stripped ([python -O]) an extractor name outside
    the accepted three raises nothing: [extract_features] falls off the end
    of its branches and returns [None], leaving the state untouched. *)
Theorem extract_features_unsupported_optimized (data : dataset)
    (feature_extractor : string) (verbose : bool) st :
  py_debug = false →
  feature_extractor ∉ FEATURE_EXTRACTORS →
  extract_features data feature_extractor verbose st = (inr PyNone, st).
Proof.
  intros Hdebug Hnot. unfold extract_features, bind, py_assert. rewrite Hdebug. simpl.
  unfold FEATURE_EXTRACTORS in Hnot. rewrite !not_elem_of_cons in Hnot.
  destruct Hnot as (? & ? & ? & _). by rewrite !decide_False by done.
Qed.

(** X17.  For a name among the choices of the command-line flag the check
    at the head of [extract_features] never fires and [None] is never
    returned: an exception is the [NotImplementedError] of ["BERT"] or the
    one the TF-IDF vectorizer raised, a value is the dataset itself for
    ["identity"] or the matrix the vectorizer returned; the world and the
    fits entered are left alone, and a line is printed only for a matrix
    with [verbose] set. *)
Theorem extract_features_from_choices (data : dataset) (feature_extractor : string)
    (verbose : bool) st :
  feature_extractor ∈ feature_extractor_choices →
  let run := extract_features data feature_extractor verbose st in
  match run.1 with
  | inl e =>
      (feature_extractor = "BERT" ∧ e = NotImplementedError ∨
       feature_extractor = "TFIDF" ∧ tfidf_matrix data = inl e) ∧ run.2 = st
  | inr (Identity d) => feature_extractor = "identity" ∧ d = data ∧ run.2 = st
  | inr (Dense m) =>
      feature_extractor = "TFIDF" ∧ tfidf_matrix data = inr m ∧
      run.2 = mkState (ext st)
                (stdout st ++
                   if verbose then ["Dataset dimensions: " +:+ shape_repr m] else [])
                (fits st)
  | inr PyNone => False
  end.
Proof.
  intros Hin run. subst run. unfold feature_extractor_choices in Hin.
  rewrite !elem_of_cons in Hin. unfold extract_features, bind.
  destruct Hin as [->|[->|[->|Hin]]]; [| | |by apply elem_of_nil in Hin].
  - rewrite bool_decide_eq_true_2, py_assert_true by compute_done.
    by rewrite decide_True by done.
  - rewrite bool_decide_eq_true_2, py_assert_true by compute_done.
    rewrite !decide_False, decide_True by done. simpl. auto.
  - rewrite bool_decide_eq_true_2, py_assert_true by compute_done.
    rewrite decide_False, decide_True by done. unfold pure_call.
    destruct (tfidf_matrix data) as [e|m]; simpl; [auto|].
    destruct verbose; simpl; [done|]. rewrite app_nil_r. by destruct st.
Qed.

End ExtractMore.

(** ** The check on the labels *)

Section CanonicalLabels.
Context `{Env : Environment}.

Lemma elem_of_range (n l : Z) : l ∈ range n ↔ 0 ≤ l < n.
Proof.
  unfold range. rewrite list_elem_of_fmap. split.
  - intros (i & -> & [_ Hi]%elem_of_seq). lia.
  - intros Hl. exists (Z.to_nat l). split; [lia|]. apply elem_of_seq. lia.
Qed.

Lemma size_labels (y : list Z) :
  size (list_to_set y : gset Z) = length (first_occurrences y).
Proof.
  rewrite <- (size_list_to_set (C := gset Z) (first_occurrences y))
    by apply NoDup_first_occurrences.
  f_equal. apply set_eq. intros l.
  by rewrite !elem_of_list_to_set, elem_of_first_occurrences.
Qed.

Lemma canonical_labels_range (y : list Z) :
  canonical_labels y = true ↔
  ∀ l, l ∈ y ↔ 0 ≤ l < Z.of_nat (length (first_occurrences y)).
Proof.
  unfold canonical_labels. rewrite bool_decide_eq_true, size_labels, set_eq.
  apply forall_proper. intros l.
  by rewrite !elem_of_list_to_set, elem_of_range.
Qed.

(** X18.  The check of the main script passes exactly when the labels are
    the numbers from 0 up to the number of distinct labels: every label
    lies in that range and every number of the range is a label.  So an
    empty label vector passes, and a vector that passes holds neither a
    negative label nor a gap. *)
Theorem canonical_labels_spec (y : list Z) :
  (canonical_labels y = true ↔
   ∀ l, l ∈ y ↔ 0 ≤ l < Z.of_nat (length (first_occurrences y))) ∧
  canonical_labels [] = true ∧
  (canonical_labels y = true → ∀ l, l ∈ y → 0 ≤ l ∧ ∀ l', 0 ≤ l' ≤ l → l' ∈ y).
Proof.
  split; [apply canonical_labels_range|]. split; [done|].
  intros Hcanon l Hl. rewrite canonical_labels_range in Hcanon.
  pose proof (proj1 (Hcanon l) Hl). split; [lia|].
  intros l' Hl'. apply Hcanon. lia.
Qed.

Lemma length_first_occurrences_le (y : list Z) :
  (length (first_occurrences y) ≤ length y)%nat.
Proof.
  induction y as [|l y IH] using rev_ind; [done|].
  rewrite first_occurrences_snoc. case_decide; rewrite !length_app; simpl; lia.
Qed.

Lemma filter_all {A} (P : A → Prop) `{∀ x, Decision (P x)} (l : list A) :
  (∀ x, x ∈ l → P x) → filter P l = l.
Proof.
  induction l as [|x l IH]; intros Hall; [done|].
  rewrite filter_cons, decide_True by (apply Hall; by left).
  rewrite IH; [done|]. intros z Hz. apply Hall. by right.
Qed.

(** X19.  On labels that pass the check of the main script the sentinel
    is no label, so the seed sampler reveals exactly
    [num_seed_points_per_label] entries for every label without exception,
    and the remaining entries, the length less that number per distinct
    label, are the sentinel.  (A Python list holds fewer than 2^63 items, so
    that labels which pass the check fit int64.) *)
Theorem sample_cluster_seeds_canonical {F} (features : list F) (labels : list Z)
    (k : Z) (aggregate : string) (st : state) :
  canonical_labels labels = true →
  Z.of_nat (length labels) < 2 ^ 63 →
  length features = length labels →
  0 ≤ k →
  (∀ l, l ∈ labels → k ≤ Z.of_nat (count l labels)) →
  (UNKNOWN ∉ labels) ∧
  ∃ out st',
    sample_cluster_seeds features labels k aggregate st = (inr out, st') ∧
    (∀ l, l ∈ labels → Z.of_nat (count l out) = k) ∧
    Z.of_nat (count UNKNOWN out) =
      Z.of_nat (length labels) - k * Z.of_nat (length (first_occurrences labels)).
Proof.
  intros Hcanon Hmax Hlen Hk Hsize. rewrite canonical_labels_range in Hcanon.
  assert (UNKNOWN ∉ labels) as Hunknown.
  { intros Hin. apply Hcanon in Hin. unfold UNKNOWN in Hin. lia. }
  split; [done|].
  pose proof (paired_labels_same_length features labels Hlen) as Hps.
  assert (∀ l, l ∈ labels → np.is_int64 l) as Hint.
  { intros l Hl%Hcanon. unfold np.is_int64.
    pose proof (length_first_occurrences_le labels). lia. }
  destruct (sample_cluster_seeds_exact features labels k aggregate st)
    as (marks & w & Hrun & Hmarks); [done|rewrite Hps; by split; auto|].
  destruct (sample_cluster_seeds_returns features labels k aggregate st)
    as (out & w' & Hrun' & Hout); [done|by rewrite Hps|].
  rewrite Hrun in Hrun'. injection Hrun' as <- <-.
  rewrite Hps in Hmarks. eexists _, _. split; [done|]. split.
  - intros l Hl.
    rewrite (markings_count _ _ _ _ l Hmarks);
      [lia|apply NoDup_first_occurrences|by apply elem_of_first_occurrences|].
    by intros ->.
  - pose proof (markings_split _ _ _ _ Hmarks) as Hsplit.
    rewrite filter_all in Hsplit.
    + rewrite Hout, Hlen in Hsplit. nia.
    + intros l Hl ->. by rewrite elem_of_first_occurrences in Hl.
Qed.

End CanonicalLabels.

(** ** The wrappers *)

Section WrappersMore.
Context `{LLM : LLMLibrary}.
Implicit Types (features : list feature) (documents : list document) (st : state).

(** X20.  The selector is chosen by one comparison: every value of
    [constraint_selection_algorithm] other than ["SimilarityFinder"], a
    misspelling included, runs the distance-based selector, exactly as
    ["DistanceBasedSelector"] does; no value is rejected. *)
Theorem LLMPairwiseClustering_selector features documents (num_clusters : Z)
    (prompt text_type prompt_suffix : string) (max_feedback_given : Z)
    (pckmeans_w : weight) (cache_file : option string)
    (constraint_selection_algorithm kmeans_init : string) st :
  constraint_selection_algorithm ≠ "SimilarityFinder" →
  LLMPairwiseClustering features documents num_clusters prompt text_type prompt_suffix
    max_feedback_given pckmeans_w cache_file constraint_selection_algorithm kmeans_init st =
  LLMPairwiseClustering features documents num_clusters prompt text_type prompt_suffix
    max_feedback_given pckmeans_w cache_file "DistanceBasedSelector" kmeans_init st.
Proof.
  intros Hne. unfold LLMPairwiseClustering.
  by destruct (decide (constraint_selection_algorithm = "SimilarityFinder")).
Qed.

(** X21.  What [LLMPairwiseClustering] returns belongs together: the
    constraints are those the selector collected from the oracle, and the
    assignment is that of the [PCKMeans] fitted on the features with exactly
    these constraints as must-links and cannot-links. *)
Theorem LLMPairwiseClustering_returns features documents (num_clusters : Z)
    (prompt text_type prompt_suffix : string) (max_feedback_given : Z)
    (pckmeans_w : weight) (cache_file : option string)
    (constraint_selection_algorithm kmeans_init : string) st
    (assignment : list Z) (pairwise_constraints : constraints * constraints) st' :
  LLMPairwiseClustering features documents num_clusters prompt text_type prompt_suffix
    max_feedback_given pckmeans_w cache_file constraint_selection_algorithm kmeans_init st
    = (inr (assignment, pairwise_constraints), st') →
  ∃ o w0 w1 w2,
    GPT3Oracle features prompt documents prompt_suffix text_type cache_file
      max_feedback_given (ext st) = (inr o, w0) ∧
    (if decide (constraint_selection_algorithm = "SimilarityFinder")
     then SimilarityFinder_fit num_clusters features o w0
     else DistanceBasedSelector_fit num_clusters features o w0)
      = (inr pairwise_constraints, w1) ∧
    PCKMeans_normalized_fit num_clusters kmeans_init pckmeans_w features
      pairwise_constraints.1 pairwise_constraints.2 w1 = (inr assignment, w2) ∧
    stdout st' = stdout st ++ ["Collecting Constraints"; "Training PCKMeans"].
Proof.
  unfold LLMPairwiseClustering, bind, entering, print, call, ret. simpl.
  destruct (GPT3Oracle _ _ _ _ _ _ _ _) as [[e|o] w0] eqn:Horacle; [done|]. simpl.
  assert (∃ r w1,
            (if decide (constraint_selection_algorithm = "SimilarityFinder")
             then SimilarityFinder_fit num_clusters features o w0
             else DistanceBasedSelector_fit num_clusters features o w0) = (r, w1))
    as (r & w1 & Hselect) by (destruct (if decide _ then _ else _); by eexists _, _).
  case_decide; simpl; rewrite Hselect; (destruct r as [e|pc]; [done|]); simpl;
    (destruct (PCKMeans_normalized_fit _ _ _ _ _ _ _) as [[e|a] w2] eqn:Hfit; [done|]);
    simpl; (destruct (cache_file_exists o w2) as [e|[]]; [done| |]); simpl;
    try (destruct (cache_writer_close o w2) as [[e|[]] w3]; [done|]); simpl;
    intros [= <- <- <-]; exists o, w0, w1, w2; simpl;
    by rewrite <- app_assoc.
Qed.

End WrappersMore.

Section KeyphraseMore.
Context `{LLM : LLMLibrary}.

(** X22.  Leaving the encoder out of [LLMKeyphraseClustering] is the same
    as loading the default sentence encoder first and passing it in: when
    the load returns, the run without an encoder is the run with the loaded
    encoder from the state the load leaves. *)
Theorem LLMKeyphraseClustering_default_encoder (features : list feature)
    (documents : list document) (num_clusters : Z) (prompt text_type : string)
    (prompt_for_encoder cache_file : option string) (st : state)
    (default : encoder) (w : world) :
  SentenceTransformer "sentence-transformers/distilbert-base-nli-stsb-mean-tokens"
    (ext st) = (inr default, w) →
  LLMKeyphraseClustering features documents num_clusters prompt text_type None
    prompt_for_encoder cache_file st =
  LLMKeyphraseClustering features documents num_clusters prompt text_type (Some default)
    prompt_for_encoder cache_file
    (mkState w (stdout st) (fits st ++ ["SentenceTransformer"])).
Proof.
  intros Hload. unfold LLMKeyphraseClustering, bind, entering, call, ret. simpl.
  by rewrite Hload.
Qed.

End KeyphraseMore.

(** ** The further properties on concrete runs *)

Section ConcreteRunsMore.

Ltac listed H :=
  repeat (apply elem_of_cons in H as [->|H]); [..|by apply elem_of_nil in H].

(** X1 on three feature rows and no label, asking for seven seeds. *)
Lemma sample_cluster_seeds_no_points_witness :
  ([10; 20; 30] = [] ∨ @nil Z = []) ∧
  sample_cluster_seeds (Env := Demo.env true) [10; 20; 30] [] 7 "mean"
    (Demo.start true 4) = (inr [], Demo.start true 4).
Proof.
  assert ([10; 20; 30] = [] ∨ @nil Z = []) as Hnil by (by right).
  split; [exact Hnil|].
  apply (sample_cluster_seeds_no_points (Env := Demo.env true)). exact Hnil.
Defined.

(** X2 on two points, asking for minus one seed. *)
Lemma sample_cluster_seeds_negative_witness :
  -1 < 0 ∧ [10; 20] ≠ [] ∧ [0; 1] ≠ [] ∧
  sample_cluster_seeds (Env := Demo.env true) [10; 20] [0; 1] (-1) "mean"
    (Demo.start true 4) = (inl SAMPLE_ERROR, Demo.start true 4).
Proof.
  split; [lia|]. split; [done|]. split; [done|].
  apply (sample_cluster_seeds_negative (Env := Demo.env true)); [lia|done|done].
Defined.

(** X4 on two labels of two points each, with two seeds per label. *)
Lemma sample_cluster_seeds_all_revealed_witness :
  (∀ l, l ∈ paired_labels [10; 20; 30; 40] [0; 1; 1; 0] → np.is_int64 l) ∧
  (∀ l, l ∈ paired_labels [10; 20; 30; 40] [0; 1; 1; 0] →
        Z.of_nat (count l (paired_labels [10; 20; 30; 40] [0; 1; 1; 0])) = 2) ∧
  ∃ st',
    sample_cluster_seeds (Env := Demo.env true) [10; 20; 30; 40] [0; 1; 1; 0] 2 "mean"
      (Demo.start true 4) =
    (inr (grouped_labels (paired_labels [10; 20; 30; 40] [0; 1; 1; 0])), st').
Proof.
  assert (∀ l, l ∈ paired_labels [10; 20; 30; 40] [0; 1; 1; 0] →
               Z.of_nat (count l (paired_labels [10; 20; 30; 40] [0; 1; 1; 0])) = 2)
    as Hsize.
  { intros l Hl. vm_compute in Hl. listed Hl; by vm_compute. }
  assert (∀ l, l ∈ paired_labels [10; 20; 30; 40] [0; 1; 1; 0] → np.is_int64 l) as Hint.
  { intros l Hl. vm_compute in Hl. unfold np.is_int64. listed Hl; lia. }
  split; [exact Hint|]. split; [exact Hsize|].
  apply (sample_cluster_seeds_all_revealed (Env := Demo.env true));
    [exact Hint|exact Hsize].
Defined.

(** X6 on three labels, with one seed per label. *)
Lemma sample_cluster_seeds_draws_witness :
  0 ≤ 1 ∧
  (∀ l, l ∈ paired_labels [10; 20; 30; 40; 50] [0; 1; 0; 2; 1] →
        1 ≤ Z.of_nat (count l (paired_labels [10; 20; 30; 40; 50] [0; 1; 0; 2; 1]))) ∧
  ext (sample_cluster_seeds (Env := Demo.env true) [10; 20; 30; 40; 50] [0; 1; 0; 2; 1]
         1 "mean" (Demo.start true 4)).2 =
  draws (Env := Demo.env true) 1
    ((λ l, count l (paired_labels [10; 20; 30; 40; 50] [0; 1; 0; 2; 1])) <$>
       first_occurrences (paired_labels [10; 20; 30; 40; 50] [0; 1; 0; 2; 1]))
    (ext (Demo.start true 4)).
Proof.
  assert (∀ l, l ∈ paired_labels [10; 20; 30; 40; 50] [0; 1; 0; 2; 1] →
               1 ≤ Z.of_nat (count l (paired_labels [10; 20; 30; 40; 50] [0; 1; 0; 2; 1])))
    as Hsize.
  { intros l Hl. vm_compute in Hl. listed Hl; by vm_compute. }
  split; [lia|]. split; [exact Hsize|].
  apply (sample_cluster_seeds_draws (Env := Demo.env true)); [lia|exact Hsize].
Defined.

(** X7 on four points stored class by class. *)
Lemma sample_cluster_seeds_aligned_witness :
  length [10; 20; 30; 40] = length [0; 0; 0; 1] ∧
  contiguous [0; 0; 0; 1] ∧
  (∀ l, l ∈ [0; 0; 0; 1] → np.is_int64 l) ∧
  0 ≤ 1 ∧
  (∀ l, l ∈ [0; 0; 0; 1] → 1 ≤ Z.of_nat (count l [0; 0; 0; 1])) ∧
  regrouped_order [0; 0; 0; 1] = seq 0 (length [0; 0; 0; 1]) ∧
  ∃ out st',
    sample_cluster_seeds (Env := Demo.env true) [10; 20; 30; 40] [0; 0; 0; 1] 1 "mean"
      (Demo.start true 4) = (inr out, st') ∧
    Forall2 (λ y l, y = l ∨ y = UNKNOWN) out [0; 0; 0; 1].
Proof.
  assert (contiguous [0; 0; 0; 1]) as Hc.
  { intros i j k l Hijk Hi Hk. pose proof (lookup_lt_Some _ _ _ Hk) as Hlt.
    simpl in Hlt.
    destruct i as [|[|[|[|i]]]], j as [|[|[|[|j]]]], k as [|[|[|[|k]]]];
      simpl in *; try lia; congruence. }
  assert (∀ l, l ∈ [0; 0; 0; 1] → 1 ≤ Z.of_nat (count l [0; 0; 0; 1])) as Hsize.
  { intros l Hl. listed Hl; by vm_compute. }
  assert (∀ l, l ∈ [0; 0; 0; 1] → np.is_int64 l) as Hint.
  { intros l Hl. unfold np.is_int64. listed Hl; lia. }
  split; [reflexivity|]. split; [exact Hc|]. split; [exact Hint|].
  split; [lia|]. split; [exact Hsize|].
  apply (sample_cluster_seeds_aligned (Env := Demo.env true));
    [reflexivity|exact Hc|exact Hint|lia|exact Hsize].
Defined.

(** X9 on five points with the labels 0, 1 and 2. *)
Lemma cluster_seeded_witness :
  (∀ l, l ∈ paired_labels [10; 20; 30; 40; 50] [0; 1; 0; 2; 1] → np.is_int64 l) ∧
  ∃ seeds w,
    sample_cluster_seeds (Env := Demo.env true) [10; 20; 30; 40; 50] [0; 1; 0; 2; 1]
      1 "mean" (Demo.start true 4) = (inr seeds, @mkState (Demo.env true) w [] []) ∧
    length seeds = 5%nat ∧
    (∀ l, l ∈ paired_labels [10; 20; 30; 40; 50] [0; 1; 0; 2; 1] → l ≠ UNKNOWN →
          count l seeds = 1%nat) ∧
    cluster (Env := Demo.env true) "SeededKMeans" [10; 20; 30; 40; 50] [0; 1; 0; 2; 1]
      3 None (Demo.start true 4) =
      (let '(r, w') := SeededKMeans_fit (Environment := Demo.env true) 3
                         [10; 20; 30; 40; 50] seeds w in
       (match r with inl e => inl e | inr assignment => inr (Clusterer assignment) end,
        @mkState (Demo.env true) w' [] ([] ++ ["SeededKMeans.fit"]))).
Proof.
  assert (∀ l, l ∈ paired_labels [10; 20; 30; 40; 50] [0; 1; 0; 2; 1] → np.is_int64 l)
    as Hint.
  { intros l Hl. vm_compute in Hl. unfold np.is_int64. listed Hl; lia. }
  split; [exact Hint|].
  destruct (cluster_seeded (Env := Demo.env true) [10; 20; 30; 40; 50] [0; 1; 0; 2; 1]
              3 None (Demo.start true 4))
    as (seeds & w & Hrun & Hlen & Hcount & _ & Hcluster).
  exists seeds, w. split; [exact Hrun|]. split; [exact Hlen|].
  split; [exact (proj1 (Hcount Hint))|exact Hcluster].
Defined.

(** X11 on a list with an unknown identifier and no seed. *)
Lemma compare_algorithms_no_seeds_witness :
  0 ≤ 0 ∧
  compare_algorithms (Env := Demo.env true) [10; 20; 30] [0; 1; 0] 2 None
    ["DBSCAN"] 0 true (Demo.start true 0) = (inr ∅, Demo.start true 0).
Proof.
  split; [lia|].
  apply (compare_algorithms_no_seeds (Env := Demo.env true)). lia.
Defined.

(** X13 on two of the algorithms over two seeds. *)
Lemma compare_algorithms_keys_witness :
  ∃ tbl st',
    compare_algorithms (Env := Demo.env true) [10; 20; 30; 40] [0; 1; 0; 1] 2 None
      ["KMeans"; "SeededKMeans"] 2 false (Demo.start true 0) = (inr tbl, st') ∧
    ∀ a, is_Some (tbl !! a) → a ∈ ["KMeans"; "SeededKMeans"].
Proof.
  destruct (compare_algorithms_rounds (Env := Demo.env true) [10; 20; 30; 40]
              [0; 1; 0; 1] 2 None ["KMeans"; "SeededKMeans"] false
              (demo_collaborators_return true _ _ 2 None eq_refl) eq_refl 2
              (Demo.start true 0)) as (tbl & st' & Hrun & _); [compute_done|].
  exists tbl, st'. split; [exact Hrun|].
  exact (compare_algorithms_keys (Env := Demo.env true) _ _ _ _ _ _ _ _ _ _ Hrun).
Defined.

(** X15 on the environment whose [set_seed] stores the seed as the world:
    a verbose run from world 0 and a quiet run from world 7. *)
Lemma compare_algorithms_reproducible_witness :
  set_seed_resets (Env := Demo.env true) ∧
  (compare_algorithms (Env := Demo.env true) [10; 20; 30; 40] [0; 1; 0; 1] 2 None
     ALGORITHMS 3 true (Demo.start true 0)).1 =
  (compare_algorithms (Env := Demo.env true) [10; 20; 30; 40] [0; 1; 0; 1] 2 None
     ALGORITHMS 3 false (Demo.start true 7)).1.
Proof.
  assert (set_seed_resets (Env := Demo.env true)) as Hreset by (by intros seed w w').
  split; [exact Hreset|].
  apply (compare_algorithms_reproducible (Env := Demo.env true) [10; 20; 30; 40]
           [0; 1; 0; 1] 2 None ALGORITHMS 3 true false (Demo.start true 0)
           (Demo.start true 7) Hreset).
Defined.

(** X16 with assertions stripped. *)
Lemma extract_features_unsupported_optimized_witness :
  py_debug (Environment := Demo.env false) = false ∧
  ("word2vec" ∉ FEATURE_EXTRACTORS) ∧
  extract_features (Env := Demo.env false) ["a"; "b"] "word2vec" true
    (Demo.start false 0) = (inr PyNone, Demo.start false 0).
Proof.
  assert ("word2vec" ∉ FEATURE_EXTRACTORS) as Hnot by compute_done.
  split; [reflexivity|]. split; [exact Hnot|].
  apply (extract_features_unsupported_optimized (Env := Demo.env false));
    [reflexivity|exact Hnot].
Defined.

(** X17 on the TF-IDF extractor, verbose. *)
Lemma extract_features_from_choices_witness :
  "TFIDF" ∈ feature_extractor_choices ∧
  let run := extract_features (Env := Demo.env true) ["a"; "bc"] "TFIDF" true
               (Demo.start true 0) in
  match run.1 with
  | inl e =>
      ("TFIDF" = "BERT" ∧ e = NotImplementedError ∨
       "TFIDF" = "TFIDF" ∧ tfidf_matrix (Environment := Demo.env true) ["a"; "bc"] = inl e) ∧
      run.2 = Demo.start true 0
  | inr (Identity d) => "TFIDF" = "identity" ∧ d = ["a"; "bc"] ∧ run.2 = Demo.start true 0
  | inr (Dense m) =>
      "TFIDF" = "TFIDF" ∧
      tfidf_matrix (Environment := Demo.env true) ["a"; "bc"] = inr m ∧
      run.2 = @mkState (Demo.env true) 0%nat
                ([] ++ ["Dataset dimensions: " +:+
                          shape_repr (Environment := Demo.env true) m]) []
  | inr PyNone => False
  end.
Proof.
  assert ("TFIDF" ∈ feature_extractor_choices) as Hin by compute_done.
  split; [exact Hin|].
  exact (extract_features_from_choices (Env := Demo.env true) ["a"; "bc"] "TFIDF"
           true (Demo.start true 0) Hin).
Defined.

(** X19 on five points with the labels 0, 1 and 2. *)
Lemma sample_cluster_seeds_canonical_witness :
  canonical_labels [0; 1; 0; 2; 1] = true ∧
  Z.of_nat (length [0; 1; 0; 2; 1]) < 2 ^ 63 ∧
  length [10; 20; 30; 40; 50] = length [0; 1; 0; 2; 1] ∧
  0 ≤ 1 ∧
  (∀ l, l ∈ [0; 1; 0; 2; 1] → 1 ≤ Z.of_nat (count l [0; 1; 0; 2; 1])) ∧
  (UNKNOWN ∉ [0; 1; 0; 2; 1]) ∧
  ∃ out st',
    sample_cluster_seeds (Env := Demo.env true) [10; 20; 30; 40; 50] [0; 1; 0; 2; 1]
      1 "mean" (Demo.start true 4) = (inr out, st') ∧
    (∀ l, l ∈ [0; 1; 0; 2; 1] → Z.of_nat (count l out) = 1) ∧
    Z.of_nat (count UNKNOWN out) =
      Z.of_nat (length [0; 1; 0; 2; 1]) -
      1 * Z.of_nat (length (first_occurrences [0; 1; 0; 2; 1])).
Proof.
  assert (∀ l, l ∈ [0; 1; 0; 2; 1] → 1 ≤ Z.of_nat (count l [0; 1; 0; 2; 1])) as Hsize.
  { intros l Hl. listed Hl; by vm_compute. }
  split; [reflexivity|]. split; [reflexivity|]. split; [reflexivity|].
  split; [lia|]. split; [exact Hsize|].
  apply (sample_cluster_seeds_canonical (Env := Demo.env true));
    [reflexivity|reflexivity|reflexivity|lia|exact Hsize].
Defined.

(** X20 on a misspelt selector name. *)
Lemma LLMPairwiseClustering_selector_witness :
  "similarityfinder" ≠ "SimilarityFinder" ∧
  LLMPairwiseClustering (LLM := DemoLLM.llm true) [10; 20; 30] ["a"; "b"; "c"] 2
    "p" "Tweet" "s" 5 4 (Some "cache.jsonl") "similarityfinder" "k-means++"
    (Demo.start true 0) =
  LLMPairwiseClustering (LLM := DemoLLM.llm true) [10; 20; 30] ["a"; "b"; "c"] 2
    "p" "Tweet" "s" 5 4 (Some "cache.jsonl") "DistanceBasedSelector" "k-means++"
    (Demo.start true 0).
Proof.
  split; [done|].
  apply (LLMPairwiseClustering_selector (LLM := DemoLLM.llm true)). done.
Defined.

(** X21 on a run with a budget of five queries. *)
Lemma LLMPairwiseClustering_returns_witness :
  LLMPairwiseClustering (LLM := DemoLLM.llm true) [10; 20; 30] ["a"; "b"; "c"] 2
    "p" "Tweet" "s" 5 4 (Some "cache.jsonl") "SimilarityFinder" "k-means++"
    (Demo.start true 0) =
  (inr ([1; 0; 1], ([(0, 1)%nat], [(0, 3)%nat])),
   @mkState (Demo.env true) 2%nat ["Collecting Constraints"; "Training PCKMeans"]
     ["GPT3Oracle"; "SimilarityFinder.fit"; "PCKMeans.fit"; "cache_writer.close"]) ∧
  ∃ o w0 w1 w2,
    GPT3Oracle (LLMLibrary := DemoLLM.llm true) [10; 20; 30] "p" ["a"; "b"; "c"] "s"
      "Tweet" (Some "cache.jsonl") 5 (ext (Demo.start true 0)) = (inr o, w0) ∧
    SimilarityFinder_fit (LLMLibrary := DemoLLM.llm true) 2 [10; 20; 30] o w0 =
      (inr ([(0, 1)%nat], [(0, 3)%nat]), w1) ∧
    PCKMeans_normalized_fit (LLMLibrary := DemoLLM.llm true) 2 "k-means++" 4
      [10; 20; 30] [(0, 1)%nat] [(0, 3)%nat] w1 = (inr [1; 0; 1], w2).
Proof.
  assert (LLMPairwiseClustering (LLM := DemoLLM.llm true) [10; 20; 30] ["a"; "b"; "c"] 2
            "p" "Tweet" "s" 5 4 (Some "cache.jsonl") "SimilarityFinder" "k-means++"
            (Demo.start true 0) =
          (inr ([1; 0; 1], ([(0, 1)%nat], [(0, 3)%nat])),
           @mkState (Demo.env true) 2%nat ["Collecting Constraints"; "Training PCKMeans"]
             ["GPT3Oracle"; "SimilarityFinder.fit"; "PCKMeans.fit"; "cache_writer.close"]))
    as Hrun by reflexivity.
  split; [exact Hrun|].
  destruct (LLMPairwiseClustering_returns (LLM := DemoLLM.llm true) _ _ _ _ _ _ _ _ _ _ _
              _ _ _ _ Hrun) as (o & w0 & w1 & w2 & Horacle & Hselect & Hfit & _).
  exists o, w0, w1, w2. split; [exact Horacle|]. split; [exact Hselect|exact Hfit].
Defined.

(** X22 on the stand-in encoder. *)
Lemma LLMKeyphraseClustering_default_encoder_witness :
  SentenceTransformer (LLMLibrary := DemoLLM.llm true)
    "sentence-transformers/distilbert-base-nli-stsb-mean-tokens"
    (ext (Demo.start true 0)) =
    (inr "sentence-transformers/distilbert-base-nli-stsb-mean-tokens", 0%nat) ∧
  LLMKeyphraseClustering (LLM := DemoLLM.llm true) [10; 20; 30] ["a"; "b"; "c"] 2
    "p" "Tweet" None None None (Demo.start true 0) =
  LLMKeyphraseClustering (LLM := DemoLLM.llm true) [10; 20; 30] ["a"; "b"; "c"] 2
    "p" "Tweet" (Some "sentence-transformers/distilbert-base-nli-stsb-mean-tokens")
    None None (@mkState (Demo.env true) 0%nat [] ["SentenceTransformer"]).
Proof.
  split; [reflexivity|].
  apply (LLMKeyphraseClustering_default_encoder (LLM := DemoLLM.llm true)
           [10; 20; 30] ["a"; "b"; "c"] 2 "p" "Tweet" None None (Demo.start true 0)).
  reflexivity.
Defined.

End ConcreteRunsMore.
